(** * Cloth / brain-tumor classifier: the prediction pipeline of [App.tsx]

    The repository holds two copies of one React component ([App]): the
    clothing classifier and the brain-tumor classifier.  They differ in the
    [classLabels] table and in the constants of [preprocessImage]; everything
    else is the same code.  This development embeds

    - the JavaScript values the pipeline computes with ([number] as IEEE-754
      binary64, [undefined] as [None], array indexing by a signed index),
    - [argMax], [preprocessImage] and the handlers of the component, and
    - the event loop that runs the handlers, with the closures each pending
      callback has captured,

    and proves the properties of the pipeline on that embedding. *)

From Stdlib Require Import ZArith String List Bool Lia.
From Stdlib Require Import Strings.Byte.
From Stdlib Require Import Floats.SpecFloat.
Import ListNotations.

Local Open Scope Z_scope.

(** ** JavaScript numbers *)

Module JS.

(** A JavaScript [number] is an IEEE-754 binary64 value; [spec_float] is its
    datatype (signed zeros, infinities, one NaN, finite [m * 2^e]).  The
    numbers a program holds are in canonical form, on which the comparisons
    below are the numeric ones. *)
Definition number := spec_float.

Definition prec64 : Z := 53.
Definition emax64 : Z := 1024.

Definition NaN : number := S754_nan.
Definition NegInfinity : number := S754_infinity true.

(** The number denoted by an integer literal. *)
Definition of_Z (z : Z) : number := binary_normalize prec64 emax64 z 0 false.

(** The number denoted by the decimal literal [n / 10^k]: the binary64 value
    nearest to it, which correctly rounded division produces. *)
Definition decimal (n : Z) (k : nat) : number :=
  SFdiv prec64 emax64 (of_Z n) (of_Z (10 ^ Z.of_nat k)).

Definition isNaN (x : number) : bool :=
  match x with S754_nan => true | _ => false end.

(** [x * y] and [x / y], correctly rounded. *)
Definition mul (x y : number) : number := SFmul prec64 emax64 x y.
Definition div (x y : number) : number := SFdiv prec64 emax64 x y.

(** [Math.floor] of the finite number [(-1)^s * m * 2^e]. *)
Definition floor_finite (s : bool) (m : positive) (e : Z) : Z :=
  Z.shiftl (cond_Zopp s (Zpos m)) e.

(** [Math.min(bound, Math.floor(x))] for an integer [bound], as the integer
    it is: [None] when the result is NaN or [-Infinity], which are no
    integers. *)
Definition min_floor (bound : Z) (x : number) : option Z :=
  match x with
  | S754_nan => None
  | S754_infinity true => None
  | S754_infinity false => Some bound
  | S754_zero _ => Some (Z.min bound 0)
  | S754_finite s m e => Some (Z.min bound (floor_finite s m e))
  end.

(** The finite number with mantissa [m] and exponent [e] is the integer [n],
    held with a mantissa of 53 digits. *)
Definition holds (m : positive) (e : Z) (n : Z) : Prop :=
  digits2_pos m = 53%positive /\ Zpos m = n * 2 ^ (- e) /\ -52 <= e <= 0.

(** [x < y], [x <= y] and [x === y] on numbers: each is false when an operand
    is NaN, and [+0 === -0]. *)
Definition lt (x y : number) : bool := SFltb x y.
Definition le (x y : number) : bool := SFleb x y.
Definition strict_eq (x y : number) : bool := SFeqb x y.

(** [Math.max(...args)]: start from [-Infinity]; NaN is contagious; [+0]
    replaces a running [-0]; otherwise keep the strictly larger value. *)
Definition max_step (highest x : number) : number :=
  match highest, x with
  | S754_zero true, S754_zero false => x
  | _, _ => if lt highest x then x else highest
  end.

Fixpoint max_from (highest : number) (args : list number) : number :=
  match args with
  | [] => highest
  | x :: rest => if isNaN x then NaN else max_from (max_step highest x) rest
  end.

Definition Math_max (args : list number) : number := max_from NegInfinity args.

(** [arr.indexOf(x)] scanning from index [k]: the first index whose element is
    [=== x], or [-1]. *)
Fixpoint indexOf_from (k : Z) (arr : list number) (x : number) : Z :=
  match arr with
  | [] => -1
  | y :: rest => if strict_eq y x then k else indexOf_from (k + 1) rest x
  end.

Definition indexOf (arr : list number) (x : number) : Z := indexOf_from 0 arr x.

(** [arr[i]] for an array and a number [i]: the element when [i] is an index
    of the array, [undefined] otherwise (a negative [i] names no element). *)
Definition get {A : Type} (arr : list A) (i : Z) : option A :=
  if i <? 0 then None else nth_error arr (Z.to_nat i).

(** Truthiness of a [string | null] value: [null] and the empty string are
    falsy. *)
Definition truthy_string (s : option string) : bool :=
  match s with
  | None => false
  | Some EmptyString => false
  | Some _ => true
  end.

End JS.

(** ** [argMax] *)

(** [const argMax = (arr) => arr.indexOf(Math.max(...arr))].  The engine's
    limit on the number of spread arguments is not modelled. *)
Definition argMax (arr : list JS.number) : Z :=
  JS.indexOf arr (JS.Math_max arr).


(** A spec-side reading of "the index of the maximum score, ties broken by
    lowest index": [i] is an index of [arr], no element exceeds [arr[i]], and
    every element before [i] is strictly smaller. *)
Definition first_max_index (arr : list JS.number) (i : nat) : Prop :=
  exists x,
    nth_error arr i = Some x /\
    (forall j y, nth_error arr j = Some y -> JS.le y x = true) /\
    (forall j y, (j < i)%nat -> nth_error arr j = Some y -> JS.lt y x = true).

Definition no_NaN (arr : list JS.number) : Prop :=
  Forall (fun x => JS.isNaN x = false) arr.

(** ** The image element and the tensor operations [preprocessImage] chains

    The operations are those of the tensor library the component imports;
    they are embedded from the library's documented behaviour on the
    arguments the component passes. *)

Module DOM.

(** A decoded [HTMLImageElement]: its natural size and the RGBA bytes a canvas
    reads back from it, row by row, four bytes per pixel. *)
Record HTMLImageElement := {
  height : nat;
  width : nat;
  rgba : list byte
}.

(** The element has decoded to a raster with at least one pixel. *)
Definition decoded (img : HTMLImageElement) : Prop :=
  (0 < height img)%nat /\ (0 < width img)%nat /\
  length (rgba img) = (4 * (height img * width img))%nat.

(** [naturalHeight] and [naturalWidth] are [unsigned long] attributes. *)
Definition sized (img : HTMLImageElement) : Prop :=
  Z.of_nat (height img) < 2 ^ 32 /\ Z.of_nat (width img) < 2 ^ 32.

End DOM.

Module TF.

(** Tensor elements of dtype [float32] are binary32 values. *)
Definition float32 := spec_float.
Definition prec32 : Z := 24.
Definition emax32 : Z := 128.

Definition f32_of_Z (z : Z) : float32 := binary_normalize prec32 emax32 z 0 false.
Definition f32_div (x y : float32) : float32 := SFdiv prec32 emax32 x y.

Inductive DType := Int32 | Float32.

(** The typed array that holds a tensor's values: an [Int32Array] or a
    [Float32Array]. *)
Inductive TensorData :=
| Int32Data (v : list Z)
| Float32Data (v : list float32).

Record Tensor := {
  shape : list nat;
  dtype : DType;
  data : TensorData
}.

(** [tf.browser.fromPixels(img, numChannels)]: an int32 tensor of shape
    [[height, width, numChannels]] whose element [i * numChannels + c] is byte
    [i * 4 + c] of the RGBA data (the first [numChannels] channels of pixel
    [i]). *)
Definition fromPixels (img : DOM.HTMLImageElement) (numChannels : nat) : Tensor :=
  let numPixels := (DOM.height img * DOM.width img)%nat in
  {| shape := [DOM.height img; DOM.width img; numChannels];
     dtype := Int32;
     data := Int32Data
       (map (fun k => Z.of_N (Byte.to_N
                        (nth (k / numChannels * 4 + k mod numChannels)%nat
                             (DOM.rgba img) x00)))
            (seq 0 (numPixels * numChannels))) |}.

(** The numbers a typed array holds, as a [Float32Array] stores them. *)
Definition as_float32 (d : TensorData) : list float32 :=
  match d with
  | Int32Data v => map f32_of_Z v
  | Float32Data v => v
  end.

(** Source coordinate of output coordinate [r] when an axis of [oldSize]
    samples is resized to [newSize] without corner alignment:
    [Math.min(oldSize - 1, Math.floor((oldSize / newSize) * r))], the ratio
    and the product being binary64 numbers. *)
Definition sourceNearest (oldSize newSize r : nat) : option Z :=
  let ratio := JS.div (JS.of_Z (Z.of_nat oldSize)) (JS.of_Z (Z.of_nat newSize)) in
  JS.min_floor (Z.of_nat oldSize - 1) (JS.mul ratio (JS.of_Z (Z.of_nat r))).

(** What [output[k] = xValues[i]] stores in the [Float32Array] [output]:
    the element at [i], or NaN when [i] is no index of [xValues]. *)
Definition read (xValues : list float32) (i : option Z) : float32 :=
  match i with
  | Some z =>
      match JS.get xValues z with
      | Some x => x
      | None => S754_nan
      end
  | None => S754_nan
  end.

(** [t.resizeNearestNeighbor([newHeight, newWidth])] on a rank-3 tensor; the
    library rejects other ranks here.  Output element [k] sits at row
    [k / (newW * c)], column [k / c mod newW] and channel [k mod c]; it is
    read at the source row times the row stride plus the source column times
    the column stride plus the channel.  The kernel writes into a new
    [Float32Array] and keeps the dtype of its input. *)
Definition resizeNearestNeighbor (t : Tensor) (newSize : nat * nat)
  : option Tensor :=
  match shape t with
  | [h; w; c] =>
      let '(newH, newW) := newSize in
      let index k :=
        match sourceNearest h newH (k / (newW * c)),
              sourceNearest w newW (k / c mod newW) with
        | Some row, Some col =>
            Some (row * Z.of_nat (w * c) + col * Z.of_nat c
                  + Z.of_nat (k mod c))
        | _, _ => None
        end in
      let xValues := as_float32 (data t) in
      Some {| shape := [newH; newW; c];
              dtype := dtype t;
              data := Float32Data
                        (map (fun k => read xValues (index k))
                             (seq 0 (newH * newW * c))) |}
  | _ => None
  end.

(** [t.toFloat()]: the same shape with dtype [float32]. *)
Definition toFloat (t : Tensor) : Tensor :=
  {| shape := shape t; dtype := Float32;
     data := Float32Data (as_float32 (data t)) |}.

(** [tf.scalar(x)] for an integer-valued [x]: a rank-0 [float32] tensor. *)
Definition scalar (x : Z) : Tensor :=
  {| shape := []; dtype := Float32; data := Float32Data [f32_of_Z x] |}.

(** [a.div(b)] where [b] is a scalar: [b]'s only element divides every
    element of [a], in binary32 arithmetic; the shape is [a]'s. *)
Definition div (a b : Tensor) : Tensor :=
  let s := hd S754_nan (as_float32 (data b)) in
  {| shape := shape a; dtype := Float32;
     data := Float32Data (map (fun x => f32_div x s) (as_float32 (data a))) |}.

(** [t.expandDims()]: a new leading axis of size 1. *)
Definition expandDims (t : Tensor) : Tensor :=
  {| shape := 1%nat :: shape t; dtype := dtype t; data := data t |}.

(** The values a canvas byte can take. *)
Definition byte_range (z : Z) : Prop := 0 <= z <= 255.

(** [0.0 <= x <= 1.0] on binary32 values. *)
Definition in_unit_interval (x : float32) : bool :=
  SFleb (f32_of_Z 0) x && SFleb x (f32_of_Z 1).

(** A loaded [tf.LayersModel], as the component uses it: [forward t] is the
    array [Array.from(await (model.predict(t)).data())] of output scores, or
    [None] when [model.predict] throws (for instance on an input of the wrong
    shape). *)
Record LayersModel := {
  forward : Tensor -> option (list JS.number)
}.

End TF.

(** ** The component *)

(** [interface HistoryItem { imageURL: string; predictedClass: string }].
    At run time [predictedClass] holds whatever the label lookup returned,
    which is [undefined] ([None]) for an index outside the label table. *)
Module HistoryItem.
Record t := {
  imageURL : string;
  predictedClass : option string
}.
End HistoryItem.

(** What differs between the two copies of the component: the label table and
    the arguments [preprocessImage] passes to the tensor library. *)
Record Classifier := {
  classLabels : list string;
  numChannels : nat;
  inputSize : nat * nat
}.

Definition clothingClassifier : Classifier := {|
  classLabels := ["T-shirt/top"; "Trouser"; "Pullover"; "Dress"; "Coat";
                  "Sandal"; "Shirt"; "Sneaker"; "Bag"; "Ankle boot"]%string;
  numChannels := 1;
  inputSize := (28, 28)%nat
|}.

Definition brainTumorClassifier : Classifier := {|
  classLabels := ["Glioma"; "Healthy"; "Meningioma"; "Pituitary"]%string;
  numChannels := 3;
  inputSize := (150, 150)%nat
|}.

(** [preprocessImage]:
    [fromPixels(img, c).resizeNearestNeighbor([h, w]).toFloat()
       .div(tf.scalar(255.0)).expandDims()]. *)
Definition preprocessImage (cfg : Classifier) (img : DOM.HTMLImageElement)
  : option TF.Tensor :=
  match TF.resizeNearestNeighbor (TF.fromPixels img (numChannels cfg))
                                 (inputSize cfg) with
  | Some resized =>
      Some (TF.expandDims (TF.div (TF.toFloat resized) (TF.scalar 255)))
  | None => None
  end.

Module App.

(** The four [useState] cells of the component, as of the last committed
    render.  The handlers the browser calls are the ones that render created,
    so a handler reads these values; a callback it leaves behind keeps
    reading them after later renders have replaced them. *)
Record State := {
  model : option TF.LayersModel;
  imageURL : option string;
  prediction : option string;
  history : list HistoryItem.t
}.

Definition initialState : State := {|
  model := None;
  imageURL := None;
  prediction := Some ""%string;
  history := []
|}.

Definition setModel (m : TF.LayersModel) (s : State) : State :=
  {| model := Some m; imageURL := imageURL s;
     prediction := prediction s; history := history s |}.

Definition setImageURL (url : string) (s : State) : State :=
  {| model := model s; imageURL := Some url;
     prediction := prediction s; history := history s |}.

Definition setPrediction (p : option string) (s : State) : State :=
  {| model := model s; imageURL := imageURL s;
     prediction := p; history := history s |}.

Definition setHistory (h : list HistoryItem.t) (s : State) : State :=
  {| model := model s; imageURL := imageURL s;
     prediction := prediction s; history := h |}.

(** Where the [loadModel] call of the mount effect stands. *)
Inductive LoadStatus := NotStarted | InFlight | Resolved | Rejected.

Inductive Level := Log | Error.

(** A [FileReader] started by [handleImageUpload]: the data URL it will
    deliver and whether its [onload] has run. *)
Record FileReader := {
  result : string;
  delivered : bool
}.

(** An [Image] started by [handlePredict]: the render values its [onload]
    closure captured ([model] and [imageURL] narrowed by the guard) and
    whether the [load] event has fired. *)
Record ImageLoad := {
  captured_model : TF.LayersModel;
  captured_imageURL : string;
  captured_history : list HistoryItem.t;
  loaded : bool
}.

(** The component instance together with what the browser holds for it. *)
Record World := {
  state : State;
  loadModel : LoadStatus;
  readers : list FileReader;
  images : list ImageLoad;
  alerts : list string;
  console : list (Level * string)
}.

Definition initialWorld : World := {|
  state := initialState;
  loadModel := NotStarted;
  readers := [];
  images := [];
  alerts := [];
  console := []
|}.

Definition with_state (f : State -> State) (w : World) : World :=
  {| state := f (state w); loadModel := loadModel w; readers := readers w;
     images := images w; alerts := alerts w; console := console w |}.

Definition with_loadModel (l : LoadStatus) (w : World) : World :=
  {| state := state w; loadModel := l; readers := readers w;
     images := images w; alerts := alerts w; console := console w |}.

Definition with_readers (r : list FileReader) (w : World) : World :=
  {| state := state w; loadModel := loadModel w; readers := r;
     images := images w; alerts := alerts w; console := console w |}.

Definition with_images (i : list ImageLoad) (w : World) : World :=
  {| state := state w; loadModel := loadModel w; readers := readers w;
     images := i; alerts := alerts w; console := console w |}.

Definition alert (msg : string) (w : World) : World :=
  {| state := state w; loadModel := loadModel w; readers := readers w;
     images := images w; alerts := alerts w ++ [msg]; console := console w |}.

Definition console_write (l : Level) (msg : string) (w : World) : World :=
  {| state := state w; loadModel := loadModel w; readers := readers w;
     images := images w; alerts := alerts w;
     console := console w ++ [(l, msg)] |}.

Definition notice : string :=
  "Please upload an image and wait for the model to load.".

(** [loadModel], up to its [await]. *)
Definition loadModel_start (w : World) : World :=
  with_loadModel InFlight
    (console_write Log "Attempting to load model from /model/model.json" w).

(** [loadModel], after the [await] returned [loadedModel]. *)
Definition loadModel_resume (loadedModel : TF.LayersModel) (w : World) : World :=
  with_loadModel Resolved
    (console_write Log "Model loaded successfully:"
       (with_state (setModel loadedModel) w)).

(** [loadModel], in its [catch] block. *)
Definition loadModel_catch (w : World) : World :=
  with_loadModel Rejected (console_write Error "Error loading model:" w).

(** [handleImageUpload]: [file] is [e.target.files?.[0]], given by the data
    URL that reading it produces. *)
Definition handleImageUpload (file : option string) (w : World) : World :=
  match file with
  | Some f => with_readers (readers w ++ [{| result := f; delivered := false |}]) w
  | None => w
  end.

(** [reader.onload]. *)
Definition reader_onload (r : FileReader) (w : World) : World :=
  with_state (setImageURL (result r)) w.

(** [handlePredict], run in the render whose state is [state w]. *)
Definition handlePredict (w : World) : World :=
  match model (state w), imageURL (state w) with
  | Some m, Some url =>
      if JS.truthy_string (Some url) then
        with_images (images w ++ [{| captured_model := m;
                                     captured_imageURL := url;
                                     captured_history := history (state w);
                                     loaded := false |}]) w
      else alert notice w
  | _, _ => alert notice w
  end.

(** [img.onload] of the image started by [handlePredict]: it reads [model],
    [imageURL] and [history] from the closure [c], not from the current
    state.  An exception in [preprocessImage] or [model.predict] ends the
    callback before any setter runs. *)
Definition img_onload (cfg : Classifier) (c : ImageLoad)
           (img : DOM.HTMLImageElement) (w : World) : World :=
  match preprocessImage cfg img with
  | None => w
  | Some tensorImg =>
      match TF.forward (captured_model c) tensorImg with
      | None => w
      | Some predictionData =>
          let predictedClass := JS.get (classLabels cfg) (argMax predictionData) in
          with_state
            (fun s =>
               setHistory
                 (captured_history c ++
                    [{| HistoryItem.imageURL := captured_imageURL c;
                        HistoryItem.predictedClass := predictedClass |}])
                 (setPrediction predictedClass s))
            w
      end
  end.

(** What the browser can deliver to the component. *)
Inductive Event :=
| Mounted
| ModelResolved (loadedModel : TF.LayersModel)
| ModelRejected
| InputChange (file : option string)
| ReaderLoad (k : nat)
| PredictClick
| ImageLoaded (k : nat) (img : DOM.HTMLImageElement).

Fixpoint mark_delivered (k : nat) (rs : list FileReader) : list FileReader :=
  match rs, k with
  | [], _ => []
  | r :: rest, O => {| result := result r; delivered := true |} :: rest
  | r :: rest, S k' => r :: mark_delivered k' rest
  end.

Fixpoint mark_loaded (k : nat) (imgs : list ImageLoad) : list ImageLoad :=
  match imgs, k with
  | [], _ => []
  | c :: rest, O =>
      {| captured_model := captured_model c;
         captured_imageURL := captured_imageURL c;
         captured_history := captured_history c;
         loaded := true |} :: rest
  | c :: rest, S k' => c :: mark_loaded k' rest
  end.

(** One turn of the event loop; the setters a turn calls are committed before
    the next turn.  The mount effect runs once, a promise settles once, and a
    reader or an image fires [load] once: an event that the browser cannot
    deliver in the current world leaves it unchanged.  The two [await]s of
    [img.onload] read nothing but the closure and the decoded image, so
    the callback is run in one turn, at the point where its setters run. *)
Definition step (cfg : Classifier) (w : World) (e : Event) : World :=
  match e with
  | Mounted =>
      match loadModel w with
      | NotStarted => loadModel_start w
      | _ => w
      end
  | ModelResolved loadedModel =>
      match loadModel w with
      | InFlight => loadModel_resume loadedModel w
      | _ => w
      end
  | ModelRejected =>
      match loadModel w with
      | InFlight => loadModel_catch w
      | _ => w
      end
  | InputChange file => handleImageUpload file w
  | ReaderLoad k =>
      match nth_error (readers w) k with
      | Some r =>
          if delivered r then w
          else reader_onload r (with_readers (mark_delivered k (readers w)) w)
      | None => w
      end
  | PredictClick => handlePredict w
  | ImageLoaded k img =>
      match nth_error (images w) k with
      | Some c =>
          if loaded c then w
          else img_onload cfg c img (with_images (mark_loaded k (images w)) w)
      | None => w
      end
  end.

Definition run (cfg : Classifier) (w : World) (es : list Event) : World :=
  fold_left (step cfg) es w.

(** No [load] event of image [k] occurs in [es]. *)
Definition not_loading (k : nat) (es : list Event) : bool :=
  forallb (fun e => match e with
                    | ImageLoaded k' _ => negb (Nat.eqb k' k)
                    | _ => true
                    end) es.

(** The moves of the model axis: the effect starts the load, and the load
    settles one way or the other. *)
Definition axis_next (l l' : LoadStatus) : bool :=
  match l, l' with
  | NotStarted, InFlight => true
  | InFlight, Resolved => true
  | InFlight, Rejected => true
  | _, _ => false
  end.

(** Before the load has resolved nothing has been predicted. *)
Definition no_model_yet (w : World) : Prop :=
  model (state w) = None /\ images w = [] /\
  history (state w) = [] /\ prediction (state w) = Some ""%string.

Definition load_invariant (w : World) : Prop :=
  match loadModel w with
  | Resolved => model (state w) <> None
  | _ => no_model_yet w
  end.

(** One prediction made on its own: select a file, let the reader deliver
    it, click Predict, let the image load. *)
Definition round (w : World) (url : string) (img : DOM.HTMLImageElement)
  : list Event :=
  [InputChange (Some url); ReaderLoad (length (readers w));
   PredictClick; ImageLoaded (length (images w)) img].

(** Predictions made one after the other, each click after the previous
    image has loaded. *)
Fixpoint sequential (cfg : Classifier) (w : World)
         (rounds : list (string * DOM.HTMLImageElement)) : World :=
  match rounds with
  | [] => w
  | (url, img) :: rest => sequential cfg (run cfg w (round w url img)) rest
  end.

(** The history item a prediction on [img] under [url] produces with model
    [m], if the prediction completes. *)
Definition outcome (cfg : Classifier) (m : TF.LayersModel)
           (r : string * DOM.HTMLImageElement) : list HistoryItem.t :=
  match preprocessImage cfg (snd r) with
  | Some t =>
      match TF.forward m t with
      | Some scores =>
          [{| HistoryItem.imageURL := fst r;
              HistoryItem.predictedClass :=
                JS.get (classLabels cfg) (argMax scores) |}]
      | None => []
      end
  | None => []
  end.

End App.

(** ** Sample data for the closed examples *)

Module Samples.

(** A model with a fixed input shape that answers every input of that shape
    with the same scores and throws on any other shape. *)
Definition constantModel (inputShape : list nat) (scores : list JS.number)
  : TF.LayersModel :=
  {| TF.forward := fun t =>
       if list_eq_dec Nat.eq_dec (TF.shape t) inputShape
       then Some scores else None |}.

Definition clothingShape : list nat := [1; 28; 28; 1]%nat.
Definition brainTumorShape : list nat := [1; 150; 150; 3]%nat.

(** A 2x2 image: red, green, blue and white pixels, all opaque. *)
Definition image2x2 : DOM.HTMLImageElement := {|
  DOM.height := 2;
  DOM.width := 2;
  DOM.rgba := [xff; x00; x00; xff;  x00; xff; x00; xff;
               x00; x00; xff; xff;  xff; xff; xff; xff]
|}.

(** A 1x3 image of three grey levels. *)
Definition image1x3 : DOM.HTMLImageElement := {|
  DOM.height := 1;
  DOM.width := 3;
  DOM.rgba := [x10; x10; x10; xff;  x80; x80; x80; xff;  xf0; xf0; xf0; xff]
|}.

Definition url1 : string := "data:image/png;base64,AAAA".
Definition url2 : string := "data:image/png;base64,BBBB".
Definition url3 : string := "data:image/png;base64,CCCC".

Definition oneHot (n i : nat) : list JS.number :=
  map (fun k => if Nat.eqb k i then JS.of_Z 1 else JS.of_Z 0) (seq 0 n).

(** The scores [[0,0,0,0,0,0,0,1,0,0]]. *)
Definition sneakerScores : list JS.number := oneHot 10 7.

(** The scores [[0.7, 0.1, 0.1, 0.1]]. *)
Definition gliomaScores : list JS.number :=
  [JS.decimal 7 1; JS.decimal 1 1; JS.decimal 1 1; JS.decimal 1 1].

(** Eleven scores whose maximum is the last one. *)
Definition elevenScores : list JS.number := oneHot 11 10.

(** Ten scores, all NaN. *)
Definition nanScores : list JS.number := repeat JS.NaN 10.

(** A clothing model that answers "Sneaker" when the first input value is at
    least one half and "Bag" otherwise, and throws on a wrong input shape. *)
Definition thresholdModel : TF.LayersModel :=
  {| TF.forward := fun t =>
       if list_eq_dec Nat.eq_dec (TF.shape t) clothingShape then
         match TF.data t with
         | TF.Float32Data (x :: _) =>
             Some (if SFleb (TF.f32_div (TF.f32_of_Z 1) (TF.f32_of_Z 2)) x
                   then oneHot 10 7 else oneHot 10 8)
         | _ => None
         end
       else None |}.

(** A session that has loaded model [m] and selected [url1]. *)
Definition ready (m : TF.LayersModel) : list App.Event :=
  [App.Mounted; App.ModelResolved m;
   App.InputChange (Some url1); App.ReaderLoad 0].

(** Predict on [url1], select [url2] and predict again before the first
    image has loaded. *)
Definition twoClicks : list App.Event :=
  ready thresholdModel ++
  [App.PredictClick;
   App.InputChange (Some url2); App.ReaderLoad 1;
   App.PredictClick].

(** ... then the two images load, in the order of the clicks. *)
Definition firstLoaded : list App.Event :=
  twoClicks ++ [App.ImageLoaded 0 image2x2].

Definition interleaved : list App.Event :=
  firstLoaded ++ [App.ImageLoaded 1 image1x3].

(** One prediction that completes on its own, then two whose clicks both
    come before either image loads. *)
Definition twoCompleted : list App.Event :=
  ready thresholdModel ++
  [App.PredictClick; App.ImageLoaded 0 image2x2;
   App.InputChange (Some url2); App.ReaderLoad 1;
   App.PredictClick;
   App.InputChange (Some url3); App.ReaderLoad 2;
   App.PredictClick;
   App.ImageLoaded 1 image1x3].

Definition threeCompleted : list App.Event :=
  twoCompleted ++ [App.ImageLoaded 2 image2x2].

Definition item (url label : string) : HistoryItem.t :=
  {| HistoryItem.imageURL := url; HistoryItem.predictedClass := Some label |}.

End Samples.

(** ** What the component renders

    The parts of the returned JSX that depend on the state: the preview of
    the uploaded image, the prediction heading and the history grid. *)

Module View.

(** One card of the history grid:
    [<div key={index}> <img src={item.imageURL}
       alt={`Prediction: ${item.predictedClass}`} />
       <div>Previous Prediction: {item.predictedClass}</div> </div>]. *)
Record Card := {
  key : nat;
  src : string;
  alt : string;
  caption : string
}.

Record t := {
  uploaded : option string;
  heading : option string;
  cards : option (list Card)
}.

(** [`${x}`] for a [string | undefined]. *)
Definition template (x : option string) : string :=
  match x with
  | Some s => s
  | None => "undefined"%string
  end.

(** [{x}] as a JSX child: [undefined] renders nothing. *)
Definition child (x : option string) : string :=
  match x with
  | Some s => s
  | None => ""%string
  end.

Definition card (index : nat) (item : HistoryItem.t) : Card :=
  {| key := index;
     src := HistoryItem.imageURL item;
     alt := String.append "Prediction: "
                          (template (HistoryItem.predictedClass item));
     caption := String.append "Previous Prediction: "
                              (child (HistoryItem.predictedClass item)) |}.

(** [history.map((item, index) => ...)]. *)
Fixpoint cards_from (index : nat) (h : list HistoryItem.t) : list Card :=
  match h with
  | [] => []
  | item :: rest => card index item :: cards_from (S index) rest
  end.

(** [{imageURL && <img src={imageURL} />}], [{prediction && <h2>Prediction:
    {prediction}</h2>}] and [{history.length > 0 && ...}]. *)
Definition render (s : App.State) : t :=
  {| uploaded :=
       if JS.truthy_string (App.imageURL s) then App.imageURL s else None;
     heading :=
       if JS.truthy_string (App.prediction s)
       then Some (String.append "Prediction: " (child (App.prediction s)))
       else None;
     cards :=
       match App.history s with
       | [] => None
       | _ :: _ => Some (cards_from 0 (App.history s))
       end |}.

End View.

(** ** Readings of the pipeline used in the statements below *)

Module Reading.

(** The binary32 value a canvas byte is normalised to. *)
Definition normalize (b : byte) : TF.float32 :=
  TF.f32_div (TF.f32_of_Z (Z.of_N (Byte.to_N b))) (TF.f32_of_Z 255).

(** The number of elements of the tensor [preprocessImage] builds. *)
Definition inputLength (cfg : Classifier) : nat :=
  (fst (inputSize cfg) * snd (inputSize cfg) * numChannels cfg)%nat.

(** The images of a world whose [load] event has fired. *)
Definition completed (w : App.World) : list App.ImageLoad :=
  filter App.loaded (App.images w).

(** A value the lookup [classLabels[i]] can return. *)
Definition possible_label (cfg : Classifier) (l : option string) : Prop :=
  match l with
  | None => True
  | Some s => In s (classLabels cfg)
  end.

(** What the console holds at each stage of the load. *)
Definition console_at (l : App.LoadStatus) : list (App.Level * string) :=
  let attempt :=
    (App.Log, "Attempting to load model from /model/model.json"%string) in
  match l with
  | App.NotStarted => []
  | App.InFlight => [attempt]
  | App.Resolved => [attempt; (App.Log, "Model loaded successfully:"%string)]
  | App.Rejected => [attempt; (App.Error, "Error loading model:"%string)]
  end.

(** A history item as a completed prediction writes it: a non-empty image
    URL and a label the lookup can return. *)
Definition well_formed_item (cfg : Classifier) (it : HistoryItem.t) : Prop :=
  HistoryItem.imageURL it <> ""%string /\
  possible_label cfg (HistoryItem.predictedClass it).

(** The label of the newest history item, or the initial prediction [""]
    when there is none. *)
Definition newest_label (h : list HistoryItem.t) : option string :=
  last (map HistoryItem.predictedClass h) (Some ""%string).

(** What a closure started by [handlePredict] holds, in a world [w]. *)
Definition closure_invariant (cfg : Classifier) (w : App.World)
           (c : App.ImageLoad) : Prop :=
  App.model (App.state w) = Some (App.captured_model c) /\
  App.captured_imageURL c <> ""%string /\
  Forall (well_formed_item cfg) (App.captured_history c) /\
  (App.loaded c = false ->
   (length (App.captured_history c) <= length (completed w))%nat).

(** What every world of a session satisfies. *)
Definition session_invariant (cfg : Classifier) (w : App.World) : Prop :=
  App.load_invariant w /\
  App.console w = console_at (App.loadModel w) /\
  Forall (eq App.notice) (App.alerts w) /\
  App.prediction (App.state w) = newest_label (App.history (App.state w)) /\
  Forall (well_formed_item cfg) (App.history (App.state w)) /\
  (length (App.history (App.state w)) <= length (completed w))%nat /\
  Forall (closure_invariant cfg w) (App.images w).

(** The number of clicks on Predict among the events. *)
Definition clicks (es : list App.Event) : nat :=
  length (filter (fun e => match e with
                           | App.PredictClick => true
                           | _ => false
                           end) es).

(** A 2x2 image with the red channel of [Samples.image2x2] and other green,
    blue and alpha bytes. *)
Definition image2x2_recoloured : DOM.HTMLImageElement := {|
  DOM.height := 2;
  DOM.width := 2;
  DOM.rgba := [xff; x12; x34; x56;  x00; x78; x9a; xbc;
               x00; xde; xf0; x01;  xff; x23; x45; x67]
|}.

(** A 28x28 image of one colour. *)
Definition image28x28 : DOM.HTMLImageElement := {|
  DOM.height := 28;
  DOM.width := 28;
  DOM.rgba := flat_map (fun _ => [x40; x80; xc0; xff]) (seq 0 784)
|}.

End Reading.

Import App.

(** * Proofs *)

(** ** The order on numbers *)

Section NumberOrder.

Ltac cmp_cases :=
  repeat match goal with
  | |- context [Pos.compare_cont Eq ?a ?b] =>
      change (Pos.compare_cont Eq a b) with (Pos.compare a b)
  | H : context [Pos.compare_cont Eq ?a ?b] |- _ =>
      change (Pos.compare_cont Eq a b) with (Pos.compare a b) in H
  end;
  repeat match goal with
  | |- context [Z.compare ?a ?b] => destruct (Z.compare_spec a b)
  | H : context [Z.compare ?a ?b] |- _ => destruct (Z.compare_spec a b)
  | |- context [Pos.compare ?a ?b] => destruct (Pos.compare_spec a b)
  | H : context [Pos.compare ?a ?b] |- _ => destruct (Pos.compare_spec a b)
  end;
  simpl in *; subst; try reflexivity; try discriminate; try lia.

Ltac by_cases x := destruct x as [[]|[]| |[] ? ?].

Lemma le_refl x : JS.isNaN x = false -> JS.le x x = true.
Proof.
  unfold JS.le, SFleb, SFcompare. by_cases x; simpl; intros; try reflexivity; try discriminate; cmp_cases.
Qed.

Lemma lt_le x y : JS.lt x y = true -> JS.le x y = true.
Proof.
  unfold JS.lt, JS.le, SFltb, SFleb. destruct (SFcompare x y) as [[]|]; intros; try reflexivity; discriminate.
Qed.

Lemma not_lt_le x y :
  JS.isNaN x = false -> JS.isNaN y = false -> JS.lt x y = false -> JS.le y x = true.
Proof.
  unfold JS.lt, JS.le, SFltb, SFleb, SFcompare.
  by_cases x; by_cases y; simpl; intros; try reflexivity; try discriminate; cmp_cases.
Qed.

Lemma le_trans x y z : JS.le x y = true -> JS.le y z = true -> JS.le x z = true.
Proof.
  unfold JS.le, SFleb, SFcompare.
  by_cases x; by_cases y; by_cases z; simpl; intros; try reflexivity; try discriminate; cmp_cases.
Qed.

Lemma strict_eq_le x y : JS.strict_eq x y = true <-> JS.le x y = true /\ JS.le y x = true.
Proof.
  unfold JS.strict_eq, JS.le, SFeqb, SFleb, SFcompare.
  by_cases x; by_cases y; simpl; split; intros; try tauto; try (destruct H; discriminate); try (split; reflexivity); try discriminate;
  cmp_cases.
  all: try (destruct H; cmp_cases); try (split; cmp_cases).
Qed.

Lemma lt_not_le x y : JS.lt x y = true -> JS.le y x = false.
Proof.
  unfold JS.lt, JS.le, SFltb, SFleb, SFcompare.
  by_cases x; by_cases y; simpl; intros; try reflexivity; try discriminate; cmp_cases.
Qed.

Lemma le_not_eq_lt x y : JS.le x y = true -> JS.strict_eq x y = false -> JS.lt x y = true.
Proof.
  unfold JS.lt, JS.le, JS.strict_eq, SFltb, SFleb, SFeqb.
  destruct (SFcompare x y) as [[]|]; intros; try reflexivity; discriminate.
Qed.

Lemma le_not_NaN x y : JS.le x y = true -> JS.isNaN x = false /\ JS.isNaN y = false.
Proof.
  unfold JS.le, SFleb, SFcompare. by_cases x; by_cases y; simpl; intros; try discriminate; split; reflexivity.
Qed.

End NumberOrder.

Section ArgMax.

Lemma max_step_spec h x :
  JS.isNaN h = false -> JS.isNaN x = false ->
  let h' := JS.max_step h x in
  JS.le h h' = true /\ JS.le x h' = true /\ (h' = h \/ h' = x).
Proof.
  intros Hh Hx. unfold JS.max_step.
  assert (Hgen : let h' := if JS.lt h x then x else h in
          JS.le h h' = true /\ JS.le x h' = true /\ (h' = h \/ h' = x)).
  { simpl. destruct (JS.lt h x) eqn:E.
    - repeat split; auto using lt_le, le_refl.
    - repeat split; auto using not_lt_le, le_refl. }
  destruct h as [[]|[]| |[] ? ?]; try exact Hgen;
  destruct x as [[]|[]| |[] ? ?]; try exact Hgen.
  simpl. repeat split; auto.
Qed.

Lemma max_from_spec args : forall h,
  JS.isNaN h = false -> no_NaN args ->
  let r := JS.max_from h args in
  JS.le h r = true /\
  Forall (fun y => JS.le y r = true) args /\
  (r = h \/ In r args).
Proof.
  induction args as [|x rest IH]; intros h Hh Hn; simpl.
  - repeat split; auto using le_refl.
  - inversion Hn as [|? ? Hx Hrest]; subst. rewrite Hx.
    destruct (max_step_spec h x Hh Hx) as (H1 & H2 & H3).
    assert (Hh' : JS.isNaN (JS.max_step h x) = false)
      by (destruct H3 as [-> | ->]; assumption).
    destruct (IH _ Hh' Hrest) as (I1 & I2 & I3).
    repeat split.
    + eapply le_trans; eauto.
    + constructor; [eapply le_trans; eauto | assumption].
    + destruct I3 as [-> | Hin]; [destruct H3 as [-> | ->]|]; auto.
Qed.

Lemma max_from_NaN args : forall h,
  Exists (fun x => JS.isNaN x = true) args -> JS.max_from h args = JS.NaN.
Proof.
  induction args as [|x rest IH]; intros h Hex; inversion Hex; subst; simpl.
  - rewrite H0. reflexivity.
  - destruct (JS.isNaN x); auto.
Qed.

Lemma le_NegInfinity x : JS.le x JS.NegInfinity = true -> x = JS.NegInfinity.
Proof.
  destruct x as [[]|[]| |[] ? ?]; simpl; intros; try discriminate; reflexivity.
Qed.

(** On a non-empty array without NaN, [Math.max] returns an element of the
    array that no element exceeds. *)
Lemma Math_max_spec args :
  args <> [] -> no_NaN args ->
  In (JS.Math_max args) args /\
  Forall (fun y => JS.le y (JS.Math_max args) = true) args.
Proof.
  intros Hne Hn. unfold JS.Math_max.
  destruct (max_from_spec args JS.NegInfinity eq_refl Hn) as (_ & Hub & Hin).
  split; [|assumption].
  destruct Hin as [Heq | Hin]; [|assumption].
  destruct args as [|x rest]; [contradiction|].
  inversion Hub as [|? ? Hx _]; subst. rewrite Heq in Hx |- *.
  apply le_NegInfinity in Hx. subst. left. reflexivity.
Qed.

Lemma indexOf_from_first arr : forall k x i y,
  nth_error arr i = Some y -> JS.strict_eq y x = true ->
  (forall j z, (j < i)%nat -> nth_error arr j = Some z -> JS.strict_eq z x = false) ->
  JS.indexOf_from k arr x = k + Z.of_nat i.
Proof.
  induction arr as [|a rest IH]; intros k x i y Hi Hy Hbefore.
  - destruct i; discriminate.
  - destruct i as [|i]; simpl in *.
    + inversion Hi; subst. rewrite Hy. lia.
    + rewrite (Hbefore 0%nat a) by (simpl; auto; lia).
      rewrite (IH (k + 1) x i y Hi Hy).
      * lia.
      * intros j z Hj Hz. apply (Hbefore (S j) z); [lia | exact Hz].
Qed.

Lemma indexOf_from_none arr : forall k x,
  Forall (fun y => JS.strict_eq y x = false) arr -> JS.indexOf_from k arr x = -1.
Proof.
  induction arr as [|a rest IH]; intros k x H; simpl; [reflexivity|].
  inversion H; subst. rewrite H2. auto.
Qed.

Lemma strict_eq_NaN_r y : JS.strict_eq y JS.NaN = false.
Proof. destruct y as [[]|[]| |[] ? ?]; reflexivity. Qed.

(** The index the spec describes is the one [argMax] returns. *)
Lemma argMax_first_max arr i : first_max_index arr i -> argMax arr = Z.of_nat i.
Proof.
  intros (x & Hi & Hub & Hbefore).
  assert (Hn : no_NaN arr).
  { apply Forall_forall. intros y Hy. apply In_nth_error in Hy as [j Hj].
    apply (le_not_NaN y x). eauto. }
  assert (Hne : arr <> []) by (intros ->; destruct i; discriminate).
  destruct (Math_max_spec arr Hne Hn) as (Hin & Hmax).
  set (r := JS.Math_max arr) in *.
  assert (Hxr : JS.strict_eq x r = true).
  { apply strict_eq_le. split.
    - rewrite Forall_forall in Hmax. apply Hmax. eapply nth_error_In; eauto.
    - apply In_nth_error in Hin as [j Hj]. eauto. }
  unfold argMax, JS.indexOf. fold r.
  rewrite (indexOf_from_first arr 0 r i x Hi Hxr); [lia|].
  intros j z Hj Hz. specialize (Hbefore j z Hj Hz).
  destruct (JS.strict_eq z r) eqn:E; [|reflexivity].
  apply strict_eq_le in E as [_ E]. apply strict_eq_le in Hxr as [Hxr _].
  pose proof (le_trans _ _ _ Hxr E) as Hxz.
  apply lt_not_le in Hbefore. congruence.
Qed.

(** A non-empty array without NaN has such an index. *)
Lemma first_max_index_exists arr :
  arr <> [] -> no_NaN arr -> exists i, first_max_index arr i.
Proof.
  intros Hne Hn.
  destruct (Math_max_spec arr Hne Hn) as (Hin & Hmax).
  set (r := JS.Math_max arr) in *.
  (* the first position holding a value === r *)
  assert (Hfirst : forall l, Exists (fun y => JS.strict_eq y r = true) l ->
            exists i y, nth_error l i = Some y /\ JS.strict_eq y r = true /\
              forall j z, (j < i)%nat -> nth_error l j = Some z -> JS.strict_eq z r = false).
  { induction l as [|a l IH]; intros Hex; [inversion Hex|].
    destruct (JS.strict_eq a r) eqn:E.
    - exists 0%nat, a. repeat split; auto. intros; lia.
    - inversion Hex; subst; [congruence|].
      destruct (IH H0) as (i & y & H1 & H2 & H3).
      exists (S i), y. repeat split; auto.
      intros [|j] z Hj Hz; simpl in Hz; [inversion Hz; subst; assumption|].
      apply (H3 j z); [lia | assumption]. }
  destruct (Hfirst arr) as (i & y & Hi & Hy & Hbefore).
  { apply Exists_exists. exists r. split; [assumption|].
    apply strict_eq_le. unfold no_NaN in Hn. rewrite Forall_forall in Hn.
    split; apply le_refl; auto. }
  exists i, y. split; [assumption|]. split.
  - intros j z Hz. rewrite Forall_forall in Hmax.
    apply strict_eq_le in Hy as [_ Hy].
    eapply le_trans; [|exact Hy]. apply Hmax. eapply nth_error_In; eauto.
  - intros j z Hj Hz. apply le_not_eq_lt.
    + rewrite Forall_forall in Hmax. apply strict_eq_le in Hy as [_ Hy].
      eapply le_trans; [|exact Hy]. apply Hmax. eapply nth_error_In; eauto.
    + destruct (JS.strict_eq z y) eqn:E; [|reflexivity].
      rewrite <- (Hbefore j z Hj Hz). symmetry.
      apply strict_eq_le in E as [E1 E2]. apply strict_eq_le in Hy as [Y1 Y2].
      apply strict_eq_le. split; eapply le_trans; eauto.
Qed.

Lemma first_max_index_lt arr i : first_max_index arr i -> (i < length arr)%nat.
Proof.
  intros (x & Hi & _). apply nth_error_Some. congruence.
Qed.

Lemma argMax_NaN arr : Exists (fun x => JS.isNaN x = true) arr -> argMax arr = -1.
Proof.
  intros H. unfold argMax, JS.Math_max, JS.indexOf. rewrite (max_from_NaN _ _ H).
  apply indexOf_from_none. apply Forall_forall. intros y _. apply strict_eq_NaN_r.
Qed.

End ArgMax.

(** ** Binary64 arithmetic on sizes and coordinates *)

Section Binary64.

Lemma fexp64 x : fexp JS.prec64 JS.emax64 x = Z.max (x - 53) (-1074).
Proof. reflexivity. Qed.

Lemma digits2_pos_size p : digits2_pos p = Pos.size p.
Proof. induction p; simpl; congruence. Qed.

Lemma Zdigits2_log2 m : 0 < m -> Zdigits2 m = Z.log2 m + 1.
Proof.
  destruct m as [|p|p]; try lia. intros _. simpl. rewrite digits2_pos_size.
  destruct p; simpl; lia.
Qed.

Lemma Zdigits2_le m k : 0 <= m < 2 ^ k -> 0 <= k -> Zdigits2 m <= k.
Proof.
  intros [H0 Hk] Hk0. destruct (Z.eq_dec m 0) as [-> | Hne]; [exact Hk0|].
  rewrite Zdigits2_log2 by lia.
  assert (Z.log2 m < k) by (apply Z.log2_lt_pow2; lia). lia.
Qed.

Lemma digits2_pos_bounds p :
  2 ^ (Zpos (digits2_pos p) - 1) <= Zpos p < 2 ^ Zpos (digits2_pos p).
Proof.
  pose proof (Zdigits2_log2 (Zpos p) eq_refl) as H.
  change (Zdigits2 (Zpos p)) with (Zpos (digits2_pos p)) in H.
  pose proof (Z.log2_spec (Zpos p) eq_refl) as [H1 H2].
  rewrite H. replace (Z.log2 (Zpos p) + 1 - 1) with (Z.log2 (Zpos p)) by lia.
  split; [exact H1|]. replace (Z.log2 (Zpos p) + 1) with (Z.succ (Z.log2 (Zpos p))) by lia.
  exact H2.
Qed.

Lemma Zdigits2_nonneg m : 0 <= Zdigits2 m.
Proof. destruct m; simpl; lia. Qed.

Lemma iter_pos_invariant {A} (P : A -> Prop) (f : A -> A) :
  (forall x, P x -> P (f x)) -> forall p x, P x -> P (iter_pos f p x).
Proof.
  intros Hf. induction p as [p IH | p IH |]; intros x Hx; simpl; auto.
Qed.

Lemma shr_1_nonneg mrs bound :
  0 <= shr_m mrs <= bound -> 0 <= shr_m (shr_1 mrs) <= bound.
Proof.
  destruct mrs as [m r s]. simpl. destruct m as [|[p|p|]|p]; simpl; lia.
Qed.

Lemma shr_nonneg mrs e n bound :
  0 <= shr_m mrs <= bound ->
  0 <= shr_m (fst (shr mrs e n)) <= bound /\
  snd (shr mrs e n) = e + Z.max 0 n.
Proof.
  intros H. unfold shr. destruct n as [|p|p]; simpl; try (split; [exact H | lia]).
  split; [|lia].
  apply (iter_pos_invariant (fun x => 0 <= shr_m x <= bound)); [|exact H].
  intros x. apply shr_1_nonneg.
Qed.

Lemma shr_record_of_loc_m m l : shr_m (shr_record_of_loc m l) = m.
Proof. destruct l as [|[]]; reflexivity. Qed.

Lemma round_nearest_even_bounds m l :
  m <= round_nearest_even m l <= m + 1.
Proof.
  unfold round_nearest_even. destruct l as [|[]]; try lia.
  destruct (Z.even m); lia.
Qed.

Lemma shr_fexp_nonneg m e l :
  0 <= m ->
  0 <= shr_m (fst (shr_fexp JS.prec64 JS.emax64 m e l)) <= m /\
  snd (shr_fexp JS.prec64 JS.emax64 m e l) =
    e + Z.max 0 (Z.max (Zdigits2 m + e - 53) (-1074) - e).
Proof.
  intros Hm. unfold shr_fexp. rewrite fexp64.
  apply shr_nonneg. rewrite shr_record_of_loc_m. lia.
Qed.

(** Rounding a non-negative mantissa never yields NaN, and keeps the sign. *)
Lemma binary_round_aux_nonneg sx mx ex lx :
  0 <= mx ->
  let r := binary_round_aux JS.prec64 JS.emax64 sx mx ex lx in
  r = S754_zero sx \/ r = S754_infinity sx \/ exists m e, r = S754_finite sx m e.
Proof.
  intros Hm. unfold binary_round_aux.
  pose proof (shr_fexp_nonneg mx ex lx Hm) as [H1 _].
  destruct (shr_fexp JS.prec64 JS.emax64 mx ex lx) as [mrs1 e1]. cbn [fst] in H1.
  set (m1 := round_nearest_even (shr_m mrs1) (loc_of_shr_record mrs1)).
  assert (Hm1 : 0 <= m1)
    by (pose proof (round_nearest_even_bounds (shr_m mrs1) (loc_of_shr_record mrs1));
        subst m1; lia).
  pose proof (shr_fexp_nonneg m1 e1 loc_Exact Hm1) as [H2 _].
  destruct (shr_fexp JS.prec64 JS.emax64 m1 e1 loc_Exact) as [mrs2 e2]. cbn [fst] in H2.
  destruct (shr_m mrs2) as [|m|m]; [auto | | lia].
  destruct (e2 <=? JS.emax64 - JS.prec64); eauto.
Qed.

(** With the mantissa below [2^k] and the exponent small enough, it does not
    overflow either. *)
Lemma binary_round_aux_finite sx mx ex lx k :
  0 <= mx < 2 ^ k -> 0 <= k ->
  -1074 <= ex -> ex + 2 * k + 2 <= 971 ->
  let r := binary_round_aux JS.prec64 JS.emax64 sx mx ex lx in
  r = S754_zero sx \/ exists m e, r = S754_finite sx m e.
Proof.
  intros Hm Hk Hex Hbound. unfold binary_round_aux.
  pose proof (shr_fexp_nonneg mx ex lx (proj1 Hm)) as [H1 E1].
  pose proof (Zdigits2_le mx k Hm Hk) as Hd. pose proof (Zdigits2_nonneg mx) as Hd0.
  destruct (shr_fexp JS.prec64 JS.emax64 mx ex lx) as [mrs1 e1]. cbn [fst snd] in H1, E1.
  set (m1 := round_nearest_even (shr_m mrs1) (loc_of_shr_record mrs1)).
  pose proof (round_nearest_even_bounds (shr_m mrs1) (loc_of_shr_record mrs1)) as Hr.
  fold m1 in Hr.
  assert (Hm1 : 0 <= m1 < 2 ^ (k + 1)).
  { rewrite Z.pow_add_r, Z.pow_1_r by lia. lia. }
  pose proof (shr_fexp_nonneg m1 e1 loc_Exact (proj1 Hm1)) as [H2 E2].
  pose proof (Zdigits2_le m1 (k + 1) Hm1 ltac:(lia)) as Hd1.
  pose proof (Zdigits2_nonneg m1) as Hd10.
  destruct (shr_fexp JS.prec64 JS.emax64 m1 e1 loc_Exact) as [mrs2 e2]. cbn [fst snd] in H2, E2.
  destruct (shr_m mrs2) as [|m|m]; [auto | | lia].
  assert (He : (e2 <=? JS.emax64 - JS.prec64) = true).
  { apply Z.leb_le. change (JS.emax64 - JS.prec64) with 971. lia. }
  rewrite He. eauto.
Qed.

(** A mantissa of 53 digits with an exponent in range is left as it is. *)
Lemma binary_round_aux_canonical sx m e :
  digits2_pos m = 53%positive -> -1074 <= e <= 971 ->
  binary_round_aux JS.prec64 JS.emax64 sx (Zpos m) e loc_Exact = S754_finite sx m e.
Proof.
  intros Hd He. unfold binary_round_aux, shr_fexp.
  cbn [Zdigits2]. rewrite Hd, fexp64.
  replace (Z.max (53 + e - 53) (-1074) - e) with 0 by lia.
  cbn [shr shr_record_of_loc shr_m loc_of_shr_record round_nearest_even Zdigits2].
  rewrite Hd, fexp64.
  replace (Z.max (53 + e - 53) (-1074) - e) with 0 by lia.
  cbn [shr shr_record_of_loc shr_m].
  assert (Hle : (e <=? JS.emax64 - JS.prec64) = true)
    by (apply Z.leb_le; change (JS.emax64 - JS.prec64) with 971; lia).
  rewrite Hle. reflexivity.
Qed.

Lemma iter_xO_value p k : Zpos (Pos.iter xO p k) = Zpos p * 2 ^ Zpos k.
Proof.
  induction k as [|k IH] using Pos.peano_ind.
  - simpl. lia.
  - rewrite Pos.iter_succ, Pos2Z.inj_xO, IH, Pos2Z.inj_succ, Z.pow_succ_r by lia.
    lia.
Qed.

Lemma iter_xO_digits p k :
  digits2_pos (Pos.iter xO p k) = (digits2_pos p + k)%positive.
Proof.
  induction k as [|k IH] using Pos.peano_ind.
  - simpl. lia.
  - rewrite Pos.iter_succ. cbn [digits2_pos]. rewrite IH. lia.
Qed.

Lemma of_Z_exact n :
  0 < n < 2 ^ 53 -> exists m e, JS.of_Z n = S754_finite false m e /\ JS.holds m e n.
Proof.
  intros [H0 H53]. destruct n as [|p|p]; try lia.
  unfold JS.of_Z, binary_normalize, binary_round, shl_align.
  rewrite fexp64.
  pose proof (digits2_pos_bounds p) as [Hlo Hhi].
  assert (Hd : Zpos (digits2_pos p) <= 53).
  { change (Zpos (digits2_pos p)) with (Zdigits2 (Zpos p)).
    apply Zdigits2_le; lia. }
  set (d := digits2_pos p) in *.
  replace (Z.max (Zpos d + 0 - 53) (-1074)) with (Zpos d - 53) by lia.
  destruct (Zpos d - 53 - 0) as [|k|k] eqn:Ek; try lia.
  - exists p, 0. split.
    + apply binary_round_aux_canonical; [|lia]. fold d. lia.
    + unfold JS.holds. fold d. split; [lia|]. simpl. lia.
  - exists (Pos.iter xO p k), (Zpos d - 53). split.
    + apply binary_round_aux_canonical; [|lia].
      rewrite iter_xO_digits. fold d. lia.
    + unfold JS.holds. rewrite iter_xO_digits, iter_xO_value. fold d.
      split; [lia|]. split; [|lia]. f_equal. f_equal. lia.
Qed.

Lemma floor_exact m e n : JS.holds m e n -> JS.floor_finite false m e = n.
Proof.
  intros (_ & Hm & He). unfold JS.floor_finite. cbn [cond_Zopp].
  rewrite Z.shiftl_div_pow2, Hm by lia.
  apply Z.div_mul. apply Z.pow_nonzero; lia.
Qed.

Lemma floor_nonneg m e : 0 <= JS.floor_finite false m e.
Proof. unfold JS.floor_finite. cbn [cond_Zopp]. apply Z.shiftl_nonneg. lia. Qed.

Lemma div_eucl_pair a b : Z.div_eucl a b = (a / b, a mod b).
Proof. unfold Z.div, Z.modulo. destruct (Z.div_eucl a b). reflexivity. Qed.

Lemma SFdiv_core_53 m1 e1 m2 e2 :
  digits2_pos m1 = 53%positive -> digits2_pos m2 = 53%positive ->
  -52 <= e1 <= 0 -> -52 <= e2 <= 0 ->
  SFdiv_core_binary JS.prec64 JS.emax64 (Zpos m1) e1 (Zpos m2) e2 =
    (Zpos m1 * 2 ^ 53 / Zpos m2, e1 - e2 - 53,
     new_location (Zpos m2) ((Zpos m1 * 2 ^ 53) mod Zpos m2)).
Proof.
  intros H1 H2 He1 He2. unfold SFdiv_core_binary. cbv zeta.
  cbn [Zdigits2]. rewrite H1, H2, fexp64.
  replace (Z.min (Z.max (53 + e1 - (53 + e2) - 53) (-1074)) (e1 - e2))
    with (e1 - e2 - 53) by lia.
  replace (e1 - e2 - (e1 - e2 - 53)) with 53 by lia.
  cbv beta iota.
  rewrite Z.shiftl_mul_pow2 by lia. rewrite div_eucl_pair. reflexivity.
Qed.

(** The quotient of two positive integers below [2^53] is a positive zero or
    a positive finite number: it is no NaN and it does not overflow. *)
Lemma div_finite a b :
  0 < a < 2 ^ 53 -> 0 < b < 2 ^ 53 ->
  JS.div (JS.of_Z a) (JS.of_Z b) = S754_zero false \/
  exists m e, JS.div (JS.of_Z a) (JS.of_Z b) = S754_finite false m e.
Proof.
  intros Ha Hb.
  destruct (of_Z_exact a Ha) as (m1 & e1 & -> & H1 & V1 & E1).
  destruct (of_Z_exact b Hb) as (m2 & e2 & -> & H2 & V2 & E2).
  unfold JS.div, SFdiv. rewrite (SFdiv_core_53 m1 e1 m2 e2 H1 H2 E1 E2).
  cbn [xorb].
  pose proof (digits2_pos_bounds m1) as [_ B1]. rewrite H1 in B1.
  apply (binary_round_aux_finite false _ _ _ 106); try lia.
  assert (Hnum : 0 <= Zpos m1 * 2 ^ 53 < 2 ^ 106).
  { change (2 ^ 106) with (2 ^ 53 * 2 ^ 53). split; [lia|].
    apply Z.mul_lt_mono_pos_r; lia. }
  split.
  - apply Z.div_pos; lia.
  - apply Z.div_lt_upper_bound; [lia|]. nia.
Qed.

(** A positive integer below [2^53] divided by itself is exactly one. *)
Lemma div_same a :
  0 < a < 2 ^ 53 -> JS.div (JS.of_Z a) (JS.of_Z a) = JS.of_Z 1.
Proof.
  intros Ha.
  destruct (of_Z_exact a Ha) as (m & e & -> & H & V & E).
  unfold JS.div, SFdiv. rewrite (SFdiv_core_53 m e m e H H E E).
  rewrite (Z.mul_comm (Zpos m)), Z.div_mul, Z.mod_mul by lia.
  replace (e - e - 53) with (-53) by lia.
  unfold new_location. destruct (Z.even (Zpos m)); reflexivity.
Qed.

Lemma shr_52 m :
  iter_pos shr_1 52
    {| shr_m := Zpos (Pos.mul 4503599627370496 m); shr_r := false; shr_s := false |} =
  {| shr_m := Zpos m; shr_r := false; shr_s := false |}.
Proof. reflexivity. Qed.

Lemma digits_mul_52 m :
  digits2_pos (Pos.mul 4503599627370496 m) = (digits2_pos m + 52)%positive.
Proof. cbn [Pos.mul digits2_pos]. lia. Qed.

(** One times an integer held exactly is that integer. *)
Lemma mul_one m e :
  digits2_pos m = 53%positive -> -52 <= e <= 0 ->
  JS.mul (JS.of_Z 1) (S754_finite false m e) = S754_finite false m e.
Proof.
  intros Hd He.
  change (JS.of_Z 1) with (S754_finite false 4503599627370496 (-52)).
  unfold JS.mul, SFmul. cbn [xorb].
  unfold binary_round_aux, shr_fexp at 1.
  change (Zdigits2 (Zpos (4503599627370496 * m)))
    with (Zpos (digits2_pos (Pos.mul 4503599627370496 m))).
  rewrite digits_mul_52, Hd, fexp64.
  replace (Z.max (Zpos (53 + 52) + (-52 + e) - 53) (-1074) - (-52 + e))
    with 52 by lia.
  cbn [shr shr_record_of_loc]. rewrite shr_52.
  cbn [loc_of_shr_record shr_m round_nearest_even].
  replace (-52 + e + 52) with e by lia.
  unfold shr_fexp. cbn [Zdigits2]. rewrite Hd, fexp64.
  replace (Z.max (53 + e - 53) (-1074) - e) with 0 by lia.
  cbn [shr shr_record_of_loc shr_m].
  assert (Hle : (e <=? JS.emax64 - JS.prec64) = true)
    by (apply Z.leb_le; change (JS.emax64 - JS.prec64) with 971; lia).
  rewrite Hle. reflexivity.
Qed.

(** For sizes below [2^53] the source coordinate is an index of the old
    axis. *)
Lemma sourceNearest_in_range old new r :
  (0 < old)%nat -> Z.of_nat old < 2 ^ 53 -> Z.of_nat new < 2 ^ 53 ->
  (r < new)%nat ->
  exists i, TF.sourceNearest old new r = Some (Z.of_nat i) /\ (i < old)%nat.
Proof.
  intros Hold Hob Hnb Hr. unfold TF.sourceNearest.
  assert (Hres : forall z, 0 <= z <= Z.of_nat old - 1 ->
            exists i, Some z = Some (Z.of_nat i) /\ (i < old)%nat).
  { intros z Hz. exists (Z.to_nat z). split; [f_equal|]; lia. }
  destruct (div_finite (Z.of_nat old) (Z.of_nat new)) as [Hq | (mq & eq & Hq)];
    try lia; rewrite Hq.
  - (* the ratio underflows to zero *)
    destruct r as [|r].
    + cbn. apply Hres. lia.
    + destruct (of_Z_exact (Z.of_nat (S r))) as (m & e & -> & _); [lia|].
      cbn. apply Hres. lia.
  - destruct r as [|r].
    + cbn. apply Hres. lia.
    + destruct (of_Z_exact (Z.of_nat (S r))) as (m & e & -> & _); [lia|].
      unfold JS.mul, SFmul. cbn [xorb].
      destruct (binary_round_aux_nonneg false (Zpos (mq * m)) (eq + e) loc_Exact)
        as [-> | [-> | (m' & e' & ->)]]; [lia| | |]; cbn [JS.min_floor].
      * apply Hres. lia.
      * apply Hres. lia.
      * apply Hres. pose proof (floor_nonneg m' e'). lia.
Qed.

(** When the old and the new size are equal, it is the coordinate itself. *)
Lemma sourceNearest_same n r :
  Z.of_nat n < 2 ^ 53 -> (r < n)%nat ->
  TF.sourceNearest n n r = Some (Z.of_nat r).
Proof.
  intros Hn Hr. unfold TF.sourceNearest. rewrite div_same by lia.
  destruct r as [|r].
  - cbn. f_equal. lia.
  - destruct (of_Z_exact (Z.of_nat (S r))) as (m & e & Hm & Hh); [lia|].
    rewrite Hm. pose proof Hh as (Hd & Hv & He).
    rewrite (mul_one m e Hd He). cbn [JS.min_floor].
    rewrite (floor_exact m e (Z.of_nat (S r)) Hh).
    f_equal. lia.
Qed.


(** The product is rounded before it is floored, and the ratio before it is
    multiplied: at 68 to 28 samples, coordinate 21 reads source 50 (the exact
    quotient is 51), and at 122 to 28, coordinate 14 reads source 60 (exactly
    61). *)
Lemma sourceNearest_rounds :
  TF.sourceNearest 68 28 21 = Some 50 /\ (21 * 68 / 28 = 51)%nat /\
  TF.sourceNearest 122 28 14 = Some 60 /\ (14 * 122 / 28 = 61)%nat.
Proof. repeat split; vm_compute; reflexivity. Qed.

End Binary64.

(** ** [preprocessImage] *)

Section Preprocess.

Local Open Scope nat_scope.

Lemma normalized_byte_in_unit_interval (b : byte) :
  TF.in_unit_interval (Reading.normalize b) = true.
Proof. destruct b; vm_compute; reflexivity. Qed.

Lemma fromPixels_nth img c :
  exists px,
    TF.data (TF.fromPixels img c) = TF.Int32Data px /\
    forall p ch,
      p < DOM.height img * DOM.width img -> ch < c ->
      nth_error px (p * c + ch) =
        Some (Z.of_N (Byte.to_N (nth (4 * p + ch) (DOM.rgba img) x00))).
Proof.
  eexists. split; [reflexivity|]. intros p ch Hp Hch.
  rewrite nth_error_map, nth_error_seq.
  assert (Hlt : p * c + ch < DOM.height img * DOM.width img * c) by nia.
  apply Nat.ltb_lt in Hlt. rewrite Hlt. cbn [option_map Nat.add].
  rewrite Nat.div_add_l, (Nat.div_small ch c), Nat.add_0_r by lia.
  rewrite (Nat.add_comm (p * c)), Nat.Div0.mod_add, (Nat.mod_small ch c) by lia.
  rewrite (Nat.mul_comm p 4). reflexivity.
Qed.

Lemma preprocessImage_spec cfg img :
  exists v,
    preprocessImage cfg img =
      Some {| TF.shape := [1; fst (inputSize cfg); snd (inputSize cfg);
                           numChannels cfg];
              TF.dtype := TF.Float32;
              TF.data := TF.Float32Data v |} /\
    length v = Reading.inputLength cfg.
Proof.
  unfold preprocessImage, TF.resizeNearestNeighbor, Reading.inputLength.
  change (TF.shape (TF.fromPixels img (numChannels cfg)))
    with [DOM.height img; DOM.width img; numChannels cfg].
  destruct (inputSize cfg) as [newH newW]. cbn [fst snd].
  eexists. split; [reflexivity|].
  cbn [TF.toFloat TF.as_float32 TF.data].
  rewrite !length_map, length_seq. reflexivity.
Qed.

Lemma pixel_index_lt h w row col : row < h -> col < w -> row * w + col < h * w.
Proof. intros Hr Hc. nia. Qed.

(** Every element of the tensor is a byte of the image divided by 255: the
    byte of channel [k mod C] of the pixel at the source row and column the
    resize computes for the element's position. *)
Lemma preprocessImage_pointwise cfg img :
  DOM.decoded img -> DOM.sized img ->
  (Z.of_nat (fst (inputSize cfg)) < 2 ^ 53)%Z ->
  (Z.of_nat (snd (inputSize cfg)) < 2 ^ 53)%Z ->
  exists v,
    preprocessImage cfg img =
      Some {| TF.shape := [1; fst (inputSize cfg); snd (inputSize cfg);
                           numChannels cfg];
              TF.dtype := TF.Float32;
              TF.data := TF.Float32Data v |} /\
    length v = Reading.inputLength cfg /\
    forall k, k < Reading.inputLength cfg ->
      exists row col,
        TF.sourceNearest (DOM.height img) (fst (inputSize cfg))
                         (k / (snd (inputSize cfg) * numChannels cfg))
          = Some (Z.of_nat row) /\ row < DOM.height img /\
        TF.sourceNearest (DOM.width img) (snd (inputSize cfg))
                         (k / numChannels cfg mod snd (inputSize cfg))
          = Some (Z.of_nat col) /\ col < DOM.width img /\
        nth_error v k =
          Some (Reading.normalize
                  (nth (4 * (row * DOM.width img + col) + k mod numChannels cfg)
                       (DOM.rgba img) x00)).
Proof.
  intros (Hh & Hw & _) (Sh & Sw) SH SW.
  unfold preprocessImage, TF.resizeNearestNeighbor, Reading.inputLength.
  change (TF.shape (TF.fromPixels img (numChannels cfg)))
    with [DOM.height img; DOM.width img; numChannels cfg].
  destruct (fromPixels_nth img (numChannels cfg)) as (px & Hd & Hpx).
  rewrite Hd.
  destruct (inputSize cfg) as [newH newW]. cbn [fst snd] in *.
  set (c := numChannels cfg) in *.
  eexists. split; [reflexivity|]. split.
  - cbn [TF.toFloat TF.as_float32 TF.data]. rewrite !length_map, length_seq.
    reflexivity.
  - intros k Hk.
    assert (Hc : 0 < c) by (destruct c; [rewrite Nat.mul_0_r in Hk|]; lia).
    assert (HW : 0 < newW) by (destruct newW; [rewrite Nat.mul_0_r in Hk; simpl in Hk|]; lia).
    destruct (sourceNearest_in_range (DOM.height img) newH (k / (newW * c)))
      as (row & Hrow & Hrlt); try lia.
    { apply Nat.Div0.div_lt_upper_bound. nia. }
    destruct (sourceNearest_in_range (DOM.width img) newW (k / c mod newW))
      as (col & Hcol & Hclt); try lia.
    { apply Nat.mod_upper_bound. lia. }
    exists row, col. repeat split; try assumption.
    cbn [TF.toFloat TF.as_float32 TF.data TF.scalar TF.div hd TF.expandDims].
    rewrite !nth_error_map, nth_error_seq.
    apply Nat.ltb_lt in Hk as Hk'. rewrite Hk'. cbn [option_map Nat.add].
    rewrite Hrow, Hcol. unfold TF.read, JS.get.
    replace (Z.of_nat row * Z.of_nat (DOM.width img * c) + Z.of_nat col * Z.of_nat c
             + Z.of_nat (k mod c))%Z
      with (Z.of_nat ((row * DOM.width img + col) * c + k mod c)) by lia.
    assert ((Z.of_nat ((row * DOM.width img + col) * c + k mod c) <? 0)%Z = false)
      as -> by (apply Z.ltb_ge; lia).
    rewrite Nat2Z.id, nth_error_map, Hpx.
    + reflexivity.
    + apply pixel_index_lt; assumption.
    + apply Nat.mod_upper_bound. lia.
Qed.

(** The elements of a tensor so described lie in [0, 1]. *)
Lemma normalized_elements_in_unit_interval (v : list TF.float32) :
  (forall k, k < length v -> exists b, nth_error v k = Some (Reading.normalize b)) ->
  Forall (fun x => TF.in_unit_interval x = true) v.
Proof.
  intros H. apply Forall_forall. intros x Hx.
  apply In_nth_error in Hx as [k Hk].
  assert (Hlt : k < length v) by (apply nth_error_Some; congruence).
  destruct (H k Hlt) as [b Hb]. rewrite Hb in Hk. injection Hk as <-.
  apply normalized_byte_in_unit_interval.
Qed.

End Preprocess.

(** ** The event loop *)

Section EventLoop.
Variable cfg : Classifier.

Lemma truthy_nonempty url : url <> ""%string -> JS.truthy_string (Some url) = true.
Proof. destruct url; [congruence | reflexivity]. Qed.

Lemma handlePredict_starts w m url :
  model (state w) = Some m -> imageURL (state w) = Some url -> url <> ""%string ->
  handlePredict w =
    with_images (images w ++ [{| captured_model := m; captured_imageURL := url;
                                 captured_history := history (state w);
                                 loaded := false |}]) w.
Proof.
  intros Hm Hu Hne. unfold handlePredict. rewrite Hm, Hu, truthy_nonempty by assumption.
  reflexivity.
Qed.

Lemma handlePredict_rejects w :
  model (state w) = None \/ JS.truthy_string (imageURL (state w)) = false ->
  handlePredict w = alert notice w.
Proof.
  intros H. unfold handlePredict.
  destruct (model (state w)); destruct (imageURL (state w)) as [u|];
    try reflexivity.
  destruct H as [H|H]; [discriminate | rewrite H; reflexivity].
Qed.

Lemma mark_loaded_other k k' imgs :
  k' <> k -> nth_error (mark_loaded k' imgs) k = nth_error imgs k.
Proof.
  revert k k'. induction imgs as [|c rest IH]; intros k k' Hne.
  - destruct k'; reflexivity.
  - destruct k' as [|k']; destruct k as [|k]; simpl; try reflexivity.
    + congruence.
    + apply IH. congruence.
Qed.

Lemma img_onload_images c img w : images (img_onload cfg c img w) = images w.
Proof.
  unfold img_onload. destruct (preprocessImage cfg img); [|reflexivity].
  destruct (TF.forward (captured_model c) t); reflexivity.
Qed.

Lemma img_onload_loadModel c img w : loadModel (img_onload cfg c img w) = loadModel w.
Proof.
  unfold img_onload. destruct (preprocessImage cfg img); [|reflexivity].
  destruct (TF.forward (captured_model c) t); reflexivity.
Qed.

Lemma img_onload_model c img w :
  model (state (img_onload cfg c img w)) = model (state w).
Proof.
  unfold img_onload. destruct (preprocessImage cfg img); [|reflexivity].
  destruct (TF.forward (captured_model c) t); reflexivity.
Qed.

(** A pending image is untouched by every event but its own [load]. *)
Lemma step_keeps_pending w e k c :
  nth_error (images w) k = Some c ->
  (forall img, e <> ImageLoaded k img) ->
  nth_error (images (step cfg w e)) k = Some c.
Proof.
  intros Hk Hne. destruct e as [| m | | f | r | | k' img]; simpl.
  - destruct (loadModel w); assumption.
  - destruct (loadModel w); assumption.
  - destruct (loadModel w); assumption.
  - destruct f; assumption.
  - destruct (nth_error (readers w) r) as [rd|]; [|assumption].
    destruct (delivered rd); assumption.
  - unfold handlePredict.
    assert (Happ : forall x, nth_error (images w ++ [x]) k = Some c).
    { intros x. rewrite nth_error_app1; [assumption|]. apply nth_error_Some. congruence. }
    destruct (model (state w)); destruct (imageURL (state w)) as [u|]; try assumption.
    destruct (JS.truthy_string (Some u)); [apply Happ | assumption].
  - destruct (nth_error (images w) k') as [c'|] eqn:Hk'; [|assumption].
    destruct (loaded c'); [assumption|].
    rewrite img_onload_images. simpl.
    rewrite mark_loaded_other; [assumption|]. intros ->. apply (Hne img). reflexivity.
Qed.

Lemma run_keeps_pending es : forall w k c,
  nth_error (images w) k = Some c ->
  not_loading k es = true ->
  nth_error (images (run cfg w es)) k = Some c.
Proof.
  induction es as [|e es IH]; intros w k c Hk Hes; simpl in *; [assumption|].
  apply andb_true_iff in Hes as [He Hes].
  apply IH; [|assumption]. apply step_keeps_pending; [assumption|].
  intros img ->. simpl in He. rewrite Nat.eqb_refl in He. discriminate.
Qed.

Lemma run_app w es1 es2 : run cfg w (es1 ++ es2) = run cfg (run cfg w es1) es2.
Proof. unfold run. apply fold_left_app. Qed.

(** What a completed [img.onload] leaves behind. *)
Lemma image_loaded_completes w k c img t scores :
  nth_error (images w) k = Some c -> loaded c = false ->
  preprocessImage cfg img = Some t ->
  TF.forward (captured_model c) t = Some scores ->
  let label := JS.get (classLabels cfg) (argMax scores) in
  let w' := step cfg w (ImageLoaded k img) in
  history (state w') =
    captured_history c ++
      [{| HistoryItem.imageURL := captured_imageURL c;
          HistoryItem.predictedClass := label |}] /\
  prediction (state w') = label /\
  model (state w') = model (state w) /\
  imageURL (state w') = imageURL (state w) /\
  alerts w' = alerts w /\ console w' = console w /\
  loadModel w' = loadModel w.
Proof.
  intros Hk Hl Hp Hf. simpl. rewrite Hk, Hl. unfold img_onload. rewrite Hp, Hf.
  simpl. repeat split; reflexivity.
Qed.

End EventLoop.

(** ** The arg-max step *)

Section ArgMaxClaims.

Import Samples.

(** C4 (as amended): for every non-empty score array that holds no NaN,
    [argMax] returns an index of the array, no score exceeds the score at that
    index, and every score before it is strictly smaller (ties go to the
    lowest index); in particular, when the array is [0.5, 0.5, 0.1, ...] with
    no later score above 0.5, [argMax] returns 0. *)
Theorem argMax_selects_first_maximum (arr : list JS.number) :
  arr <> [] -> no_NaN arr ->
  (exists i, argMax arr = Z.of_nat i /\ (i < length arr)%nat /\
             first_max_index arr i) /\
  (forall rest,
     arr = JS.decimal 5 1 :: JS.decimal 5 1 :: JS.decimal 1 1 :: rest ->
     Forall (fun y => JS.le y (JS.decimal 5 1) = true) rest ->
     argMax arr = 0).
Proof.
  intros Hne Hn. split.
  - destruct (first_max_index_exists arr Hne Hn) as [i Hi].
    exists i. auto using argMax_first_max, first_max_index_lt.
  - intros rest -> Hrest.
    apply (argMax_first_max _ 0%nat).
    exists (JS.decimal 5 1). split; [reflexivity|]. split; [|intros; lia].
    intros [|[|[|j]]] y Hy; simpl in Hy.
    1-3: injection Hy as <-; vm_compute; reflexivity.
    rewrite Forall_forall in Hrest. apply Hrest. eapply nth_error_In; eauto.
Qed.

Lemma argMax_selects_first_maximum_witness :
  let arr := [JS.decimal 5 1; JS.decimal 5 1; JS.decimal 1 1; JS.of_Z 0] in
  (exists i, argMax arr = Z.of_nat i /\ (i < length arr)%nat /\
             first_max_index arr i) /\
  argMax arr = 0.
Proof.
  intros arr.
  assert (Hne : arr <> []) by discriminate.
  assert (Hn : no_NaN arr) by (repeat constructor).
  destruct (argMax_selects_first_maximum arr Hne Hn) as [Hfirst Htie].
  split; [exact Hfirst|].
  apply (Htie [JS.of_Z 0]); [reflexivity|].
  constructor; [vm_compute; reflexivity | constructor].
Defined.

(** C4 (as stated) fails on an array that holds a NaN: [Math.max] returns
    NaN, which is [===] to no element, so [indexOf] returns [-1], which is not
    an index of the array. *)
Lemma argMax_with_NaN_is_no_index :
  let arr := [JS.decimal 5 1; JS.NaN; JS.decimal 1 1] in
  arr <> [] /\ argMax arr = -1 /\
  ~ (exists i, argMax arr = Z.of_nat i /\ (i < length arr)%nat).
Proof.
  intros arr. split; [discriminate|]. split; [reflexivity|].
  intros (i & Hi & _). change (argMax arr) with (-1) in Hi. lia.
Qed.

End ArgMaxClaims.

(** ** Preprocessing *)

(** C5: for a decoded image, [preprocessImage] returns a [float32] tensor of
    shape [[1, H, W, C]] for the variant's target size and channel count
    ([[1, 28, 28, 1]] for the clothing classifier, [[1, 150, 150, 3]] for the
    brain-tumor classifier), holding [H * W * C] values; each value is an
    integer byte of the image (channel [k mod C] of the pixel the resize
    reads for that position, which is a pixel of the image) converted to
    binary32 and divided by 255.0, and each lies in [[0.0, 1.0]]. *)
Theorem preprocessImage_shape_and_range
        (cfg : Classifier) (img : DOM.HTMLImageElement) :
  cfg = clothingClassifier \/ cfg = brainTumorClassifier ->
  DOM.decoded img -> DOM.sized img ->
  exists t v,
    preprocessImage cfg img = Some t /\
    TF.shape t = [1; fst (inputSize cfg); snd (inputSize cfg);
                  numChannels cfg]%nat /\
    (cfg = clothingClassifier -> TF.shape t = [1; 28; 28; 1]%nat) /\
    (cfg = brainTumorClassifier -> TF.shape t = [1; 150; 150; 3]%nat) /\
    TF.dtype t = TF.Float32 /\
    TF.data t = TF.Float32Data v /\
    length v = (fst (inputSize cfg) * snd (inputSize cfg) * numChannels cfg)%nat /\
    (forall k,
       (k < fst (inputSize cfg) * snd (inputSize cfg) * numChannels cfg)%nat ->
       exists row col,
         TF.sourceNearest (DOM.height img) (fst (inputSize cfg))
                          (k / (snd (inputSize cfg) * numChannels cfg))
           = Some (Z.of_nat row) /\ (row < DOM.height img)%nat /\
         TF.sourceNearest (DOM.width img) (snd (inputSize cfg))
                          (k / numChannels cfg mod snd (inputSize cfg))
           = Some (Z.of_nat col) /\ (col < DOM.width img)%nat /\
         nth_error v k =
           Some (TF.f32_div
                   (TF.f32_of_Z
                      (Z.of_N (Byte.to_N
                         (nth (4 * (row * DOM.width img + col)
                               + k mod numChannels cfg)%nat
                              (DOM.rgba img) x00))))
                   (TF.f32_of_Z 255))) /\
    Forall (fun x => TF.in_unit_interval x = true) v.
Proof.
  intros Hcfg Hd Hs.
  destruct (preprocessImage_pointwise cfg img Hd Hs) as (v & Hp & Hlen & Hk).
  { destruct Hcfg as [-> | ->]; cbn; lia. }
  { destruct Hcfg as [-> | ->]; cbn; lia. }
  eexists. exists v. split; [exact Hp|]. cbn [TF.shape TF.data TF.dtype].
  split; [reflexivity|]. split; [intros ->; reflexivity|].
  split; [intros ->; reflexivity|]. split; [reflexivity|].
  split; [reflexivity|]. split; [exact Hlen|]. split; [exact Hk|].
  apply normalized_elements_in_unit_interval. intros k Hlt.
  rewrite Hlen in Hlt. destruct (Hk k Hlt) as (row & col & _ & _ & _ & _ & Hv).
  eexists. exact Hv.
Qed.

Lemma preprocessImage_shape_and_range_witness :
  DOM.decoded Samples.image2x2 /\ DOM.sized Samples.image2x2 /\
  exists t v,
    preprocessImage clothingClassifier Samples.image2x2 = Some t /\
    TF.shape t = [1; 28; 28; 1]%nat /\
    TF.data t = TF.Float32Data v /\
    length v = 784%nat /\
    Forall (fun x => TF.in_unit_interval x = true) v.
Proof.
  assert (Hd : DOM.decoded Samples.image2x2).
  { unfold DOM.decoded. simpl. repeat split; lia. }
  assert (Hs : DOM.sized Samples.image2x2).
  { unfold DOM.sized. simpl. lia. }
  split; [exact Hd|]. split; [exact Hs|].
  destruct (preprocessImage_shape_and_range clothingClassifier Samples.image2x2
              (or_introl eq_refl) Hd Hs)
    as (t & v & Hp & _ & Hshape & _ & _ & Hdata & Hlen & _ & Hrange).
  exists t, v. repeat split; auto.
Defined.

(** ** Label lookup *)

Section LabelLookup.

Variable cfg : Classifier.

Lemma get_in_range {A} (l : list A) (i : nat) :
  (i < length l)%nat -> exists x, JS.get l (Z.of_nat i) = Some x /\ In x l.
Proof.
  intros Hi. unfold JS.get.
  assert ((Z.of_nat i <? 0) = false) as -> by (apply Z.ltb_ge; lia).
  rewrite Nat2Z.id.
  destruct (nth_error l i) as [x|] eqn:E.
  - exists x. split; [reflexivity|]. eapply nth_error_In; eauto.
  - apply nth_error_None in E. lia.
Qed.

Lemma get_out_of_range {A} (l : list A) (i : Z) :
  i < 0 \/ Z.of_nat (length l) <= i -> JS.get l i = None.
Proof.
  intros Hi. unfold JS.get. destruct (i <? 0) eqn:E; [reflexivity|].
  apply Z.ltb_ge in E. apply nth_error_None. lia.
Qed.

Lemma argMax_nil : argMax [] = -1.
Proof. reflexivity. Qed.

(** C1 (as amended): when a prediction completes on a score array that is
    non-empty, holds no NaN and has its first maximum at an index below the
    number of class labels, the label stored as the prediction and in the new
    history item is a member of the class labels. *)
Theorem stored_label_is_class_label
        (w : World) (k : nat) (c : ImageLoad) (img : DOM.HTMLImageElement)
        (t : TF.Tensor) (scores : list JS.number) :
  nth_error (images w) k = Some c -> loaded c = false ->
  preprocessImage cfg img = Some t ->
  TF.forward (captured_model c) t = Some scores ->
  scores <> [] -> no_NaN scores ->
  (forall i, first_max_index scores i -> (i < length (classLabels cfg))%nat) ->
  let w' := step cfg w (ImageLoaded k img) in
  exists label,
    In label (classLabels cfg) /\
    prediction (state w') = Some label /\
    history (state w') =
      captured_history c ++
        [{| HistoryItem.imageURL := captured_imageURL c;
            HistoryItem.predictedClass := Some label |}].
Proof.
  intros Hk Hl Hp Hf Hne Hn Hbound w'.
  destruct (image_loaded_completes cfg w k c img t scores Hk Hl Hp Hf)
    as (Hh & Hpred & _).
  destruct (first_max_index_exists scores Hne Hn) as [i Hi].
  rewrite (argMax_first_max scores i Hi) in Hh, Hpred.
  destruct (get_in_range (classLabels cfg) i (Hbound i Hi)) as (label & Hget & Hin).
  rewrite Hget in Hh, Hpred.
  exists label. repeat split; assumption.
Qed.

(** C9: when a prediction completes on an empty score array, or on one whose
    first maximum sits at an index at or past the number of class labels, the
    label lookup yields [undefined] ([argMax] being [-1] on the empty array);
    [undefined] becomes the prediction and the label of the new history item,
    and nothing is alerted or logged. *)
Theorem out_of_range_label_is_stored
        (w : World) (k : nat) (c : ImageLoad) (img : DOM.HTMLImageElement)
        (t : TF.Tensor) (scores : list JS.number) :
  nth_error (images w) k = Some c -> loaded c = false ->
  preprocessImage cfg img = Some t ->
  TF.forward (captured_model c) t = Some scores ->
  scores = [] \/
  (exists i, first_max_index scores i /\ (length (classLabels cfg) <= i)%nat) ->
  let w' := step cfg w (ImageLoaded k img) in
  (scores = [] -> argMax scores = -1) /\
  JS.get (classLabels cfg) (argMax scores) = None /\
  prediction (state w') = None /\
  history (state w') =
    captured_history c ++
      [{| HistoryItem.imageURL := captured_imageURL c;
          HistoryItem.predictedClass := None |}] /\
  alerts w' = alerts w /\ console w' = console w.
Proof.
  intros Hk Hl Hp Hf Hout w'.
  destruct (image_loaded_completes cfg w k c img t scores Hk Hl Hp Hf)
    as (Hh & Hpred & _ & _ & Ha & Hc & _).
  assert (Hget : JS.get (classLabels cfg) (argMax scores) = None).
  { apply get_out_of_range. destruct Hout as [-> | (i & Hi & Hlen)].
    - left. rewrite argMax_nil. lia.
    - right. rewrite (argMax_first_max scores i Hi). lia. }
  rewrite Hget in Hh, Hpred.
  split; [intros ->; apply argMax_nil|]. repeat split; assumption.
Qed.

End LabelLookup.

Section LabelLookupExamples.

Import Samples.

Lemma stored_label_is_class_label_witness :
  let w := run clothingClassifier initialWorld
               (ready thresholdModel ++ [PredictClick]) in
  let w' := step clothingClassifier w (ImageLoaded 0 image2x2) in
  exists label,
    In label (classLabels clothingClassifier) /\
    prediction (state w') = Some label /\
    history (state w') = [] ++ [item url1 label].
Proof.
  intros w.
  eapply (stored_label_is_class_label clothingClassifier w 0
            {| captured_model := thresholdModel; captured_imageURL := url1;
               captured_history := []; loaded := false |}
            image2x2 _ (oneHot 10 7)).
  - reflexivity.
  - reflexivity.
  - reflexivity.
  - vm_compute. reflexivity.
  - discriminate.
  - repeat constructor.
  - intros i Hi. apply first_max_index_lt in Hi. exact Hi.
Defined.

Lemma out_of_range_label_is_stored_witness :
  let w := run clothingClassifier initialWorld
               (ready (constantModel clothingShape []) ++ [PredictClick]) in
  let w' := step clothingClassifier w (ImageLoaded 0 image2x2) in
  prediction (state w') = None /\
  history (state w') =
    [] ++ [{| HistoryItem.imageURL := url1;
              HistoryItem.predictedClass := None |}].
Proof.
  intros w.
  edestruct (out_of_range_label_is_stored clothingClassifier w 0
            {| captured_model := constantModel clothingShape [];
               captured_imageURL := url1;
               captured_history := []; loaded := false |}
            image2x2) as (_ & _ & Hp & Hh & _).
  - reflexivity.
  - reflexivity.
  - reflexivity.
  - lazy. reflexivity.
  - left. reflexivity.
  - split; assumption.
Defined.

(** C1 (as stated) fails: a model whose ten scores are all NaN, or one that
    returns eleven scores with the maximum last, makes the completed
    prediction store [undefined], which is no class label, in the history. *)
Lemma undefined_label_reaches_history :
  let session scores :=
    run clothingClassifier initialWorld
        (ready (constantModel clothingShape scores) ++
         [PredictClick; ImageLoaded 0 image2x2]) in
  let no_class_label (it : HistoryItem.t) :=
    forall label, In label (classLabels clothingClassifier) ->
                  HistoryItem.predictedClass it <> Some label in
  (exists it, In it (history (state (session nanScores))) /\ no_class_label it) /\
  (exists it, In it (history (state (session elevenScores))) /\ no_class_label it).
Proof.
  intros session no_class_label.
  split; exists {| HistoryItem.imageURL := url1; HistoryItem.predictedClass := None |};
    (split; [vm_compute; left; reflexivity | intros label _; discriminate]).
Qed.

End LabelLookupExamples.

(** ** Predicting *)

Section Predicting.

Variable cfg : Classifier.

(** C6: a click on Predict while the model is [null] or no image is selected
    only raises the notice: the four state cells (so the history and the
    displayed prediction) are unchanged, and no image load, hence no
    preprocessing or inference, is started. *)
Theorem predict_without_model_or_image_only_alerts (w : World) :
  model (state w) = None \/ JS.truthy_string (imageURL (state w)) = false ->
  let w' := step cfg w PredictClick in
  alerts w' = alerts w ++ [notice] /\
  state w' = state w /\
  length (history (state w')) = length (history (state w)) /\
  prediction (state w') = prediction (state w) /\
  images w' = images w /\
  readers w' = readers w /\ loadModel w' = loadModel w /\ console w' = console w.
Proof.
  intros H w'. subst w'. simpl. rewrite (handlePredict_rejects w H).
  repeat split; reflexivity.
Qed.

(** One click on Predict followed, after any events other than the load of
    the image it started, by that load: the history becomes the history at the
    click followed by one item, which pairs the image URL at the click with
    the label of the scores. *)
Lemma predict_then_load
      (w : World) (m : TF.LayersModel) (url : string) (es : list Event)
      (img : DOM.HTMLImageElement) (t : TF.Tensor) (scores : list JS.number) :
  model (state w) = Some m -> imageURL (state w) = Some url -> url <> ""%string ->
  not_loading (length (images w)) es = true ->
  preprocessImage cfg img = Some t -> TF.forward m t = Some scores ->
  let label := JS.get (classLabels cfg) (argMax scores) in
  let w' := run cfg w (PredictClick :: es ++ [ImageLoaded (length (images w)) img]) in
  history (state w') =
    history (state w) ++
      [{| HistoryItem.imageURL := url; HistoryItem.predictedClass := label |}] /\
  prediction (state w') = label.
Proof.
  intros Hm Hu Hne Hes Hp Hf label w'. subst w'.
  change (PredictClick :: es ++ [ImageLoaded (length (images w)) img])
    with ([PredictClick] ++ es ++ [ImageLoaded (length (images w)) img]).
  rewrite !run_app.
  set (c := {| captured_model := m; captured_imageURL := url;
               captured_history := history (state w); loaded := false |}).
  set (w1 := run cfg w [PredictClick]).
  assert (Hk : nth_error (images w1) (length (images w)) = Some c).
  { subst w1. simpl. rewrite (handlePredict_starts w m url Hm Hu Hne). simpl.
    rewrite nth_error_app2, Nat.sub_diag by lia. reflexivity. }
  pose proof (run_keeps_pending cfg es w1 _ c Hk Hes) as Hk2.
  destruct (image_loaded_completes cfg (run cfg w1 es) _ c img t scores
              Hk2 eq_refl Hp Hf) as (Hh & Hpred & _).
  split; assumption.
Qed.

(** C10: the history item of a completed prediction records the image URL
    that was selected when Predict was clicked, whatever is selected (or
    otherwise happens) between the click and the load of the image the click
    started. *)
Theorem history_item_records_image_at_click
        (w : World) (m : TF.LayersModel) (url : string) (es : list Event)
        (img : DOM.HTMLImageElement) (t : TF.Tensor) (scores : list JS.number) :
  model (state w) = Some m -> imageURL (state w) = Some url -> url <> ""%string ->
  not_loading (length (images w)) es = true ->
  preprocessImage cfg img = Some t -> TF.forward m t = Some scores ->
  let w' := run cfg w (PredictClick :: es ++ [ImageLoaded (length (images w)) img]) in
  exists it,
    history (state w') = history (state w) ++ [it] /\
    HistoryItem.imageURL it = url /\
    HistoryItem.predictedClass it = JS.get (classLabels cfg) (argMax scores).
Proof.
  intros Hm Hu Hne Hes Hp Hf w'.
  destruct (predict_then_load w m url es img t scores Hm Hu Hne Hes Hp Hf)
    as (Hh & _).
  eexists. split; [exact Hh | split; reflexivity].
Qed.

End Predicting.

Section PredictingExamples.

Import Samples.

Lemma predict_without_model_or_image_only_alerts_witness :
  let w := run clothingClassifier initialWorld [Mounted; InputChange (Some url1);
                                                ReaderLoad 0] in
  let w' := step clothingClassifier w PredictClick in
  model (state w) = None /\
  alerts w' = [notice] /\ state w' = state w /\ images w' = [].
Proof.
  intros w.
  assert (H : model (state w) = None \/
              JS.truthy_string (imageURL (state w)) = false)
    by (left; reflexivity).
  destruct (predict_without_model_or_image_only_alerts clothingClassifier w H)
    as (Ha & Hs & _ & _ & Hi & _).
  split; [reflexivity|]. split; [exact Ha|]. split; [exact Hs | exact Hi].
Defined.

(** C7: in the clothing classifier, a prediction whose model output is
    [[0,0,0,0,0,0,0,1,0,0]] sets the prediction to "Sneaker" and makes the
    history grow by exactly one item bearing that label; in the brain-tumor
    classifier, output [[0.7, 0.1, 0.1, 0.1]] gives "Glioma" in the same
    way. *)
Theorem end_to_end_scenarios :
  (forall w m url img t,
     model (state w) = Some m -> imageURL (state w) = Some url ->
     url <> ""%string ->
     preprocessImage clothingClassifier img = Some t ->
     TF.forward m t = Some sneakerScores ->
     let w' := run clothingClassifier w
                   [PredictClick; ImageLoaded (length (images w)) img] in
     nth_error (classLabels clothingClassifier) 7 = Some "Sneaker"%string /\
     prediction (state w') = Some "Sneaker"%string /\
     history (state w') = history (state w) ++ [item url "Sneaker"] /\
     length (history (state w')) = S (length (history (state w)))) /\
  (forall w m url img t,
     model (state w) = Some m -> imageURL (state w) = Some url ->
     url <> ""%string ->
     preprocessImage brainTumorClassifier img = Some t ->
     TF.forward m t = Some gliomaScores ->
     let w' := run brainTumorClassifier w
                   [PredictClick; ImageLoaded (length (images w)) img] in
     nth_error (classLabels brainTumorClassifier) 0 = Some "Glioma"%string /\
     prediction (state w') = Some "Glioma"%string /\
     history (state w') = history (state w) ++ [item url "Glioma"] /\
     length (history (state w')) = S (length (history (state w)))).
Proof.
  split; intros w m url img t Hm Hu Hne Hp Hf w';
    (destruct (predict_then_load _ w m url [] img t _ Hm Hu Hne eq_refl Hp Hf)
      as (Hh & Hpred));
    (split; [reflexivity|]); (split; [exact Hpred|]); (split; [exact Hh|]);
    subst w'; simpl app in Hh; rewrite Hh, length_app; simpl; lia.
Qed.

Lemma end_to_end_scenarios_witness :
  (let w := run clothingClassifier initialWorld
                (ready (constantModel clothingShape sneakerScores)) in
   let w' := run clothingClassifier w [PredictClick; ImageLoaded 0 image2x2] in
   prediction (state w') = Some "Sneaker"%string /\
   history (state w') = [item url1 "Sneaker"]) /\
  (let w := run brainTumorClassifier initialWorld
                (ready (constantModel brainTumorShape gliomaScores)) in
   let w' := run brainTumorClassifier w [PredictClick; ImageLoaded 0 image2x2] in
   prediction (state w') = Some "Glioma"%string /\
   history (state w') = [item url1 "Glioma"]).
Proof.
  destruct end_to_end_scenarios as [HA HB]. split.
  - intros w.
    edestruct (HA w (constantModel clothingShape sneakerScores) url1 image2x2)
      as (_ & Hp & Hh & _);
      [reflexivity | reflexivity | discriminate | reflexivity | reflexivity |].
    split; [exact Hp | exact Hh].
  - intros w.
    edestruct (HB w (constantModel brainTumorShape gliomaScores) url1 image2x2)
      as (_ & Hp & Hh & _);
      [reflexivity | reflexivity | discriminate | reflexivity | reflexivity |].
    split; [exact Hp | exact Hh].
Defined.

Lemma history_item_records_image_at_click_witness :
  let w := run clothingClassifier initialWorld (ready thresholdModel) in
  let es := [InputChange (Some url2); ReaderLoad 1] in
  let w' := run clothingClassifier w
                (PredictClick :: es ++ [ImageLoaded 0 image2x2]) in
  imageURL (state w') = Some url2 /\
  exists it,
    history (state w') = [] ++ [it] /\
    HistoryItem.imageURL it = url1 /\
    HistoryItem.predictedClass it = Some "Sneaker"%string.
Proof.
  intros w es w'. split; [reflexivity|].
  edestruct (history_item_records_image_at_click clothingClassifier w
               thresholdModel url1 es image2x2)
    as (it & Hh & Hurl & Hlabel);
    [reflexivity | reflexivity | discriminate | reflexivity | reflexivity
    | lazy; reflexivity |].
  exists it. split; [exact Hh|]. split; [exact Hurl|]. exact Hlabel.
Defined.

End PredictingExamples.

(** ** Loading the model *)

Section ModelLoading.

Variable cfg : Classifier.

Lemma step_load_invariant w e :
  load_invariant w -> load_invariant (step cfg w e).
Proof.
  unfold load_invariant, no_model_yet.
  destruct e as [| m | | f | r | | k img]; simpl.
  - destruct (loadModel w) eqn:E; simpl; rewrite ?E; auto.
  - destruct (loadModel w) eqn:E; simpl; rewrite ?E; auto. discriminate.
  - destruct (loadModel w) eqn:E; simpl; rewrite ?E; auto.
  - destruct f; simpl; auto.
  - destruct (nth_error (readers w) r) as [rd|]; [|auto].
    destruct (delivered rd); simpl; auto.
  - unfold handlePredict.
    destruct (model (state w)) eqn:Em; destruct (imageURL (state w)) as [u|];
      [destruct (JS.truthy_string (Some u))| | |]; simpl; rewrite ?Em; auto.
    destruct (loadModel w); auto; intros [Hnone _]; discriminate.
  - destruct (nth_error (images w) k) as [c|] eqn:Ek; [|auto].
    destruct (loaded c); [auto|].
    rewrite img_onload_loadModel, img_onload_model. simpl.
    destruct (loadModel w); auto;
      intros (_ & Hi & _); rewrite Hi in Ek; destruct k; discriminate.
Qed.

Lemma run_load_invariant es : forall w,
  load_invariant w -> load_invariant (run cfg w es).
Proof.
  induction es as [|e es IH]; intros w Hinv; simpl; [assumption|].
  apply IH, step_load_invariant, Hinv.
Qed.

Lemma initialWorld_load_invariant : load_invariant initialWorld.
Proof. repeat split. Qed.

(** A step leaves the model axis where it is or moves it one place on. *)
Lemma step_axis w e :
  loadModel (step cfg w e) = loadModel w \/
  axis_next (loadModel w) (loadModel (step cfg w e)) = true.
Proof.
  destruct e as [| m | | f | r | | k img]; simpl.
  - destruct (loadModel w) eqn:E; simpl; rewrite ?E; auto.
  - destruct (loadModel w) eqn:E; simpl; rewrite ?E; auto.
  - destruct (loadModel w) eqn:E; simpl; rewrite ?E; auto.
  - destruct f; auto.
  - destruct (nth_error (readers w) r) as [rd|]; [|auto].
    destruct (delivered rd); auto.
  - unfold handlePredict.
    destruct (model (state w)); destruct (imageURL (state w)) as [u|]; auto.
    destruct (JS.truthy_string (Some u)); auto.
  - destruct (nth_error (images w) k) as [c|]; [|auto].
    destruct (loaded c); [auto|]. rewrite img_onload_loadModel. auto.
Qed.

(** Once the load has settled, no step moves the axis or touches the model
    cell. *)
Lemma step_settled w e :
  loadModel w = Resolved \/ loadModel w = Rejected ->
  loadModel (step cfg w e) = loadModel w /\
  model (state (step cfg w e)) = model (state w).
Proof.
  intros Hs. destruct e as [| m | | f | r | | k img]; simpl.
  - destruct Hs as [E | E]; rewrite E; auto.
  - destruct Hs as [E | E]; rewrite E; auto.
  - destruct Hs as [E | E]; rewrite E; auto.
  - destruct f; auto.
  - destruct (nth_error (readers w) r) as [rd|]; [|auto].
    destruct (delivered rd); auto.
  - unfold handlePredict.
    destruct (model (state w)) eqn:Em; destruct (imageURL (state w)) as [u|];
      [destruct (JS.truthy_string (Some u))| | |]; simpl; rewrite ?Em; auto.
  - destruct (nth_error (images w) k) as [c|]; [|auto].
    destruct (loaded c); [auto|].
    rewrite img_onload_loadModel, img_onload_model. auto.
Qed.

Lemma run_settled es : forall w,
  loadModel w = Resolved \/ loadModel w = Rejected ->
  loadModel (run cfg w es) = loadModel w /\
  model (state (run cfg w es)) = model (state w).
Proof.
  induction es as [|e es IH]; intros w Hs; simpl; [auto|].
  destruct (step_settled w e Hs) as [Hl Hm].
  destruct (IH (step cfg w e)) as [Hl' Hm']; [rewrite Hl; exact Hs|].
  split; congruence.
Qed.

(** C8: in every session, (1) a failing load installs nothing and only writes
    an error to the console, and from then on the load stays failed, the
    model stays [null], nothing is ever predicted and every click on Predict
    is answered by the notice; (2) each step leaves the model axis in place
    or moves it along not started -> loading -> loaded or failed, and a
    settled axis never moves again; (3) a model, once installed, is the
    model of every later state. *)
Theorem model_load_is_one_shot (es : list Event) :
  let w := run cfg initialWorld es in
  (loadModel w = InFlight ->
   let w1 := step cfg w ModelRejected in
   state w1 = state w /\ model (state w1) = None /\
   alerts w1 = alerts w /\
   console w1 = console w ++ [(Error, "Error loading model:"%string)] /\
   forall es',
     let w2 := run cfg w1 es' in
     loadModel w2 = Rejected /\ model (state w2) = None /\
     images w2 = [] /\ history (state w2) = [] /\
     prediction (state w2) = Some ""%string /\
     alerts (step cfg w2 PredictClick) = alerts w2 ++ [notice]) /\
  (forall e,
     (loadModel (step cfg w e) = loadModel w \/
      axis_next (loadModel w) (loadModel (step cfg w e)) = true) /\
     (loadModel w = Resolved \/ loadModel w = Rejected ->
      loadModel (step cfg w e) = loadModel w)) /\
  (forall m, model (state w) = Some m ->
     forall es', model (state (run cfg w es')) = Some m).
Proof.
  intros w.
  assert (Hinv : load_invariant w)
    by apply run_load_invariant, initialWorld_load_invariant.
  split; [|split].
  - intros Hl w1.
    assert (Hinv1 : load_invariant w1) by apply step_load_invariant, Hinv.
    assert (Hl1 : loadModel w1 = Rejected) by (subst w1; simpl; rewrite Hl; reflexivity).
    assert (Hs1 : state w1 = state w) by (subst w1; simpl; rewrite Hl; reflexivity).
    split; [exact Hs1|]. split.
    { unfold load_invariant in Hinv1. rewrite Hl1 in Hinv1. apply Hinv1. }
    split; [subst w1; simpl; rewrite Hl; reflexivity|].
    split; [subst w1; simpl; rewrite Hl; reflexivity|].
    intros es' w2.
    destruct (run_settled es' w1 (or_intror Hl1)) as [Hl2 _].
    rewrite Hl1 in Hl2.
    assert (Hinv2 : load_invariant w2) by apply run_load_invariant, Hinv1.
    unfold load_invariant in Hinv2. fold w2 in Hl2. rewrite Hl2 in Hinv2.
    destruct Hinv2 as (Hm & Hi & Hh & Hp).
    repeat split; try assumption.
    simpl. rewrite (handlePredict_rejects w2 (or_introl Hm)). reflexivity.
  - intros e. split; [apply step_axis|]. intros Hs. apply step_settled, Hs.
  - intros m Hm es'.
    assert (Hl : loadModel w = Resolved).
    { unfold load_invariant, no_model_yet in Hinv.
      destruct (loadModel w); try reflexivity;
        destruct Hinv as [Hnone _]; congruence. }
    destruct (run_settled es' w (or_introl Hl)) as [_ Hm'].
    rewrite Hm'. exact Hm.
Qed.

End ModelLoading.

Lemma model_load_is_one_shot_witness :
  let w := run clothingClassifier initialWorld [Mounted] in
  let w1 := step clothingClassifier w ModelRejected in
  let w2 := run clothingClassifier w1
              [Mounted; ModelResolved Samples.thresholdModel;
               InputChange (Some Samples.url1); ReaderLoad 0; PredictClick] in
  loadModel w = InFlight /\
  state w1 = state w /\
  loadModel w2 = Rejected /\ model (state w2) = None /\
  history (state w2) = [].
Proof.
  intros w w1 w2.
  destruct (model_load_is_one_shot clothingClassifier [Mounted])
    as (Hfail & _ & _).
  destruct (Hfail eq_refl) as (Hs & _ & _ & _ & Hlater).
  destruct (Hlater [Mounted; ModelResolved Samples.thresholdModel;
                    InputChange (Some Samples.url1); ReaderLoad 0; PredictClick])
    as (Hl & Hm & _ & Hh & _).
  split; [reflexivity|]. split; [exact Hs|]. split; [exact Hl|].
  split; [exact Hm | exact Hh].
Defined.

(** ** The history *)

Section History.

Variable cfg : Classifier.

Lemma round_appends w m url img :
  model (state w) = Some m -> url <> ""%string ->
  let w' := run cfg w (round w url img) in
  model (state w') = Some m /\
  history (state w') = history (state w) ++ outcome cfg m (url, img).
Proof.
  intros Hm Hne. unfold round, run. cbn [fold_left].
  set (w1 := step cfg w (InputChange (Some url))).
  set (w2 := step cfg w1 (ReaderLoad (length (readers w)))).
  assert (H2 : w2 = with_state (setImageURL url)
                      (with_readers (mark_delivered (length (readers w)) (readers w1)) w1)).
  { subst w2 w1. simpl. rewrite nth_error_app2, Nat.sub_diag by lia. reflexivity. }
  assert (Hm2 : model (state w2) = Some m) by (rewrite H2; exact Hm).
  assert (Hu2 : imageURL (state w2) = Some url) by (rewrite H2; reflexivity).
  assert (Hh2 : history (state w2) = history (state w)) by (rewrite H2; reflexivity).
  assert (Hi2 : images w2 = images w) by (rewrite H2; reflexivity).
  clearbody w2. clear H2 w1.
  set (c := {| captured_model := m; captured_imageURL := url;
               captured_history := history (state w2); loaded := false |}).
  set (w3 := step cfg w2 PredictClick).
  assert (H3 : w3 = with_images (images w2 ++ [c]) w2)
    by (apply handlePredict_starts; assumption).
  assert (Hk : nth_error (images w3) (length (images w)) = Some c).
  { rewrite H3. simpl. rewrite <- Hi2, nth_error_app2, Nat.sub_diag by lia.
    reflexivity. }
  assert (Hm3 : model (state w3) = Some m) by (rewrite H3; exact Hm2).
  assert (Hh3 : history (state w3) = history (state w)) by (rewrite H3; exact Hh2).
  clearbody w3. unfold outcome. cbn [fst snd].
  simpl step. rewrite Hk. cbn [loaded c]. unfold img_onload.
  destruct (preprocessImage cfg img) as [t|]; simpl.
  - cbn [captured_model c]. destruct (TF.forward m t) as [scores|]; simpl.
    + rewrite Hm3, Hh2. auto.
    + rewrite Hm3, Hh3, app_nil_r. auto.
  - rewrite Hm3, Hh3, app_nil_r. auto.
Qed.

(** Predictions that do not overlap append their items in order. *)
Lemma sequential_history rounds : forall w m,
  model (state w) = Some m ->
  Forall (fun r => fst r <> ""%string) rounds ->
  history (state (sequential cfg w rounds)) =
    history (state w) ++ flat_map (outcome cfg m) rounds.
Proof.
  induction rounds as [|[url img] rest IH]; intros w m Hm Hne;
    cbn [sequential flat_map].
  - rewrite app_nil_r. reflexivity.
  - inversion Hne as [|? ? Hurl Hrest]; subst. cbn [fst] in Hurl.
    destruct (round_appends w m url img Hm Hurl) as [Hm' Hh'].
    rewrite (IH _ m Hm' Hrest), Hh', app_assoc. reflexivity.
Qed.

(** When two started images load one after the other, the history that
    results is the one the second closure captured plus the second item: what
    the first completion stored is kept only if the second click came after
    it. *)
Lemma later_completion_resets_history
      w k1 k2 c1 c2 img1 img2 t1 t2 scores1 scores2 :
  k1 <> k2 ->
  nth_error (images w) k1 = Some c1 -> loaded c1 = false ->
  nth_error (images w) k2 = Some c2 -> loaded c2 = false ->
  preprocessImage cfg img1 = Some t1 ->
  TF.forward (captured_model c1) t1 = Some scores1 ->
  preprocessImage cfg img2 = Some t2 ->
  TF.forward (captured_model c2) t2 = Some scores2 ->
  history (state (run cfg w [ImageLoaded k1 img1; ImageLoaded k2 img2])) =
    captured_history c2 ++
      [{| HistoryItem.imageURL := captured_imageURL c2;
          HistoryItem.predictedClass :=
            JS.get (classLabels cfg) (argMax scores2) |}].
Proof.
  intros Hne H1 L1 H2 L2 P1 F1 P2 F2. unfold run. cbn [fold_left].
  assert (H2' : nth_error (images (step cfg w (ImageLoaded k1 img1))) k2 = Some c2).
  { apply step_keeps_pending; [assumption|]. intros img E. congruence. }
  apply (image_loaded_completes cfg _ k2 c2 img2 t2 scores2 H2' L2 P2 F2).
Qed.

End History.

Section HistoryExamples.

Import Samples.

(** C2 (the code at the failing input): Predict is clicked on [url1], then
    [url2] is selected and Predict is clicked again before the first image
    has loaded.  Both predictions complete; the first leaves its item in the
    history, the second replaces the history by its own single item, and the
    first item is lost. *)
Theorem interleaved_predictions_lose_an_item :
  let w1 := run clothingClassifier initialWorld firstLoaded in
  let w2 := run clothingClassifier initialWorld interleaved in
  history (state w1) = [item url1 "Sneaker"] /\
  map loaded (images w2) = [true; true] /\
  history (state w2) = [item url2 "Bag"] /\
  length (history (state w2)) = 1%nat.
Proof. vm_compute. repeat split; reflexivity. Qed.

(** C3 (the code at the failing input): one prediction completes on its own,
    then Predict is clicked on [url2] and on [url3] before either image
    loads.  After the second completion the history holds two items; after
    the third it still holds two, and the item at index 1 is no longer the
    second prediction's but the third's. *)
Theorem overlapping_predictions_replace_an_item :
  let w2 := run clothingClassifier initialWorld twoCompleted in
  let w3 := run clothingClassifier initialWorld threeCompleted in
  history (state w2) = [item url1 "Sneaker"; item url2 "Bag"] /\
  map loaded (images w3) = [true; true; true] /\
  history (state w3) = [item url1 "Sneaker"; item url3 "Sneaker"] /\
  length (history (state w3)) = 2%nat /\
  nth_error (history (state w2)) 1 <> nth_error (history (state w3)) 1.
Proof. vm_compute. repeat split; try reflexivity. discriminate. Qed.

End HistoryExamples.

(** ** More on [argMax] and the label lookup *)

Section ArgMaxRange.

Lemma indexOf_from_range arr : forall k x,
  JS.indexOf_from k arr x = -1 \/
  k <= JS.indexOf_from k arr x < k + Z.of_nat (length arr).
Proof.
  induction arr as [|a rest IH]; intros k x; simpl; [left; reflexivity|].
  destruct (JS.strict_eq a x).
  - right. lia.
  - destruct (IH (k + 1) x) as [H | H]; [left; exact H | right; lia].
Qed.

Lemma NaN_or_not arr : Exists (fun x => JS.isNaN x = true) arr \/ no_NaN arr.
Proof.
  induction arr as [|a rest [IH | IH]].
  - right. constructor.
  - left. right. exact IH.
  - destruct (JS.isNaN a) eqn:E.
    + left. left. exact E.
    + right. constructor; assumption.
Qed.

(** X1: [argMax] returns [-1] or an index of its argument, and it returns
    [-1] exactly when the array is empty or holds a NaN. *)
Theorem argMax_range_and_failure (arr : list JS.number) :
  -1 <= argMax arr < Z.of_nat (length arr) /\
  (argMax arr = -1 <-> arr = [] \/ Exists (fun x => JS.isNaN x = true) arr).
Proof.
  split.
  - unfold argMax, JS.indexOf.
    destruct (indexOf_from_range arr 0 (JS.Math_max arr)) as [H | H]; lia.
  - split.
    + intros Hm. destruct arr as [|a rest]; [left; reflexivity|]. right.
      destruct (NaN_or_not (a :: rest)) as [H | Hn]; [exact H|].
      destruct (first_max_index_exists (a :: rest)) as [i Hi];
        [discriminate | exact Hn |].
      rewrite (argMax_first_max _ i Hi) in Hm. lia.
    + intros [-> | H]; [reflexivity | apply argMax_NaN, H].
Qed.

(** X2: the label lookup [classLabels[argMax(scores)]] yields [undefined]
    exactly when the scores are empty, hold a NaN, or have their first
    maximum at an index at or past the number of class labels. *)
Theorem label_undefined_iff (cfg : Classifier) (scores : list JS.number) :
  JS.get (classLabels cfg) (argMax scores) = None <->
  scores = [] \/ Exists (fun x => JS.isNaN x = true) scores \/
  exists i, first_max_index scores i /\ (length (classLabels cfg) <= i)%nat.
Proof.
  split.
  - intros Hget. destruct scores as [|a rest]; [left; reflexivity|]. right.
    destruct (NaN_or_not (a :: rest)) as [H | Hn]; [left; exact H|]. right.
    destruct (first_max_index_exists (a :: rest)) as [i Hi];
      [discriminate | exact Hn |].
    exists i. split; [exact Hi|].
    rewrite (argMax_first_max _ i Hi) in Hget.
    destruct (Nat.le_gt_cases (length (classLabels cfg)) i) as [Hle | Hlt];
      [exact Hle|].
    destruct (get_in_range (classLabels cfg) i Hlt) as (x & Hx & _). congruence.
  - intros [-> | [H | (i & Hi & Hle)]]; apply get_out_of_range.
    + left. rewrite argMax_nil. lia.
    + left. rewrite (argMax_NaN _ H). lia.
    + right. rewrite (argMax_first_max _ i Hi). lia.
Qed.

End ArgMaxRange.

(** ** What [preprocessImage] reads *)

Section Sampling.

Local Open Scope nat_scope.


(** X4: [preprocessImage] reads only the first [C] channels of each pixel:
    two decoded images of the same size that agree on those bytes give the
    same tensor, whatever their other channels hold (green, blue and alpha in
    the clothing classifier, alpha in the brain-tumor classifier).  The
    tensor library accepts at most four channels. *)
Theorem preprocessImage_ignores_other_channels
        (cfg : Classifier) (img1 img2 : DOM.HTMLImageElement) :
  numChannels cfg <= 4 ->
  DOM.decoded img1 -> DOM.decoded img2 ->
  DOM.height img1 = DOM.height img2 -> DOM.width img1 = DOM.width img2 ->
  (forall p ch,
     p < DOM.height img1 * DOM.width img1 -> ch < numChannels cfg ->
     nth (4 * p + ch) (DOM.rgba img1) x00 = nth (4 * p + ch) (DOM.rgba img2) x00) ->
  preprocessImage cfg img1 = preprocessImage cfg img2.
Proof.
  intros _ _ _ Hh Hw Hsame.
  assert (Hpx : TF.fromPixels img1 (numChannels cfg) =
                TF.fromPixels img2 (numChannels cfg)).
  { unfold TF.fromPixels. rewrite <- Hh, <- Hw. do 2 f_equal.
    apply map_ext_in. intros k Hk. apply in_seq in Hk.
    set (c := numChannels cfg) in *.
    assert (Hc : 0 < c) by (destruct c; [rewrite Nat.mul_0_r in Hk|]; lia).
    rewrite (Nat.mul_comm (k / c) 4). do 2 f_equal. apply Hsame.
    - apply Nat.Div0.div_lt_upper_bound. nia.
    - apply Nat.mod_upper_bound. lia. }
  unfold preprocessImage. rewrite Hpx. reflexivity.
Qed.

(** X5: on an image that already has the target size, [preprocessImage]
    does no resampling: element [k] of the tensor is byte [k mod C] of pixel
    [k / C] divided by 255.  The sides of an image are [unsigned long]
    values. *)
Theorem preprocessImage_at_target_size
        (cfg : Classifier) (img : DOM.HTMLImageElement) :
  numChannels cfg <= 4 ->
  DOM.decoded img -> DOM.sized img ->
  DOM.height img = fst (inputSize cfg) -> DOM.width img = snd (inputSize cfg) ->
  exists t v,
    preprocessImage cfg img = Some t /\ TF.data t = TF.Float32Data v /\
    length v = DOM.height img * DOM.width img * numChannels cfg /\
    forall k, k < DOM.height img * DOM.width img * numChannels cfg ->
      nth_error v k =
        Some (Reading.normalize
                (nth (4 * (k / numChannels cfg) + k mod numChannels cfg)
                     (DOM.rgba img) x00)).
Proof.
  intros _ Hd Hs Hh Hw.
  pose proof Hs as (Sh & Sw).
  destruct (preprocessImage_pointwise cfg img Hd Hs) as (v & Hp & Hl & Hk);
    try (rewrite <- ?Hh, <- ?Hw; lia).
  unfold Reading.inputLength in Hl, Hk. rewrite <- Hh, <- Hw in Hl, Hk.
  eexists. exists v. split; [exact Hp|]. split; [reflexivity|].
  split; [exact Hl|].
  intros k Hlt. destruct (Hk k Hlt) as (row & col & Hrow & _ & Hcol & _ & Hv).
  rewrite Hv. do 3 f_equal.
  set (h := DOM.height img) in *. set (w := DOM.width img) in *.
  set (c := numChannels cfg) in *.
  assert (Hc : 0 < c) by (destruct c; [rewrite Nat.mul_0_r in Hlt|]; lia).
  assert (Hw0 : 0 < w) by (destruct w; [rewrite Nat.mul_0_r in Hlt; simpl in Hlt|]; lia).
  rewrite sourceNearest_same in Hrow, Hcol; try lia.
  - assert (row = k / (w * c)) as -> by (injection Hrow; lia).
    assert (col = k / c mod w) as -> by (injection Hcol; lia).
    rewrite (Nat.mul_comm w c), <- Nat.Div0.div_div.
    rewrite (Nat.mul_comm (k / c / w) w), <- Nat.Div0.div_mod. reflexivity.
  - apply Nat.mod_upper_bound. lia.
  - apply Nat.Div0.div_lt_upper_bound. nia.
Qed.

End Sampling.


(** ** What every session keeps *)

Section SessionInvariant.

Import Reading.
Variable cfg : Classifier.

Local Open Scope nat_scope.

Lemma possible_label_get i : possible_label cfg (JS.get (classLabels cfg) i).
Proof.
  unfold JS.get. destruct (i <? 0)%Z; [exact I|].
  destruct (nth_error (classLabels cfg) (Z.to_nat i)) as [l|] eqn:E; [|exact I].
  simpl. eapply nth_error_In; eauto.
Qed.

Lemma mark_loaded_Forall (P : ImageLoad -> Prop) k imgs :
  Forall P imgs ->
  (forall c, P c -> P {| captured_model := captured_model c;
                         captured_imageURL := captured_imageURL c;
                         captured_history := captured_history c;
                         loaded := true |}) ->
  Forall P (mark_loaded k imgs).
Proof.
  intros HF Hmark. revert k.
  induction HF as [|c rest Hc Hrest IH]; intros [|k]; simpl; constructor; auto.
Qed.

Lemma completed_mark_loaded k : forall imgs c,
  nth_error imgs k = Some c -> loaded c = false ->
  length (filter loaded (mark_loaded k imgs)) = S (length (filter loaded imgs)).
Proof.
  induction k as [|k IH]; intros [|a rest] c Hk Hl; simpl in *; try discriminate.
  - inversion Hk; subst. rewrite Hl. reflexivity.
  - destruct (loaded a); simpl; rewrite (IH rest c Hk Hl); reflexivity.
Qed.

Lemma newest_label_app h it :
  newest_label (h ++ [it]) = HistoryItem.predictedClass it.
Proof. unfold newest_label. rewrite map_app. apply last_last. Qed.

Lemma truthy_nonempty_inv url : JS.truthy_string (Some url) = true -> url <> ""%string.
Proof. intros H ->. discriminate. Qed.

Lemma closure_invariant_frame w w' c :
  model (state w') = model (state w) ->
  length (completed w) <= length (completed w') ->
  closure_invariant cfg w c -> closure_invariant cfg w' c.
Proof.
  intros Hm Hc (H1 & H2 & H3 & H4). repeat split; try assumption.
  - congruence.
  - intros Hl. specialize (H4 Hl). lia.
Qed.

Lemma images_frame w w' :
  model (state w') = model (state w) ->
  length (completed w) <= length (completed w') ->
  Forall (closure_invariant cfg w) (images w) ->
  Forall (closure_invariant cfg w') (images w).
Proof.
  intros Hm Hc HF. eapply Forall_impl; [|exact HF].
  intros c. apply closure_invariant_frame; assumption.
Qed.

Lemma initialWorld_session_invariant : session_invariant cfg initialWorld.
Proof.
  unfold session_invariant. repeat split; try constructor; simpl; auto.
Qed.

Lemma step_session_invariant w e :
  session_invariant cfg w -> session_invariant cfg (step cfg w e).
Proof.
  intros Hinv.
  pose proof (step_load_invariant cfg w e (proj1 Hinv)) as Hload.
  destruct Hinv as (Hli & Hcon & Hal & Hpred & Hwf & Hlen & Himgs).
  split; [exact Hload|]. clear Hload.
  destruct e as [| m | | f | r | | k img]; simpl.
  - (* Mounted *)
    destruct (loadModel w) eqn:E; unfold session_invariant;
      simpl; rewrite ?E; try (repeat split; assumption).
    rewrite Hcon. repeat split; try assumption.
  - (* ModelResolved *)
    destruct (loadModel w) eqn:E; simpl; rewrite ?E;
      try (repeat split; assumption).
    unfold load_invariant, no_model_yet in Hli. rewrite E in Hli.
    destruct Hli as (_ & Hi & _).
    rewrite Hcon. repeat split; try assumption.
    rewrite Hi. constructor.
  - (* ModelRejected *)
    destruct (loadModel w) eqn:E; simpl; rewrite ?E;
      try (repeat split; assumption).
    rewrite Hcon. repeat split; try assumption.
  - (* InputChange *)
    destruct f; simpl; repeat split; assumption.
  - (* ReaderLoad *)
    destruct (nth_error (readers w) r) as [rd|]; [|repeat split; assumption].
    destruct (delivered rd); simpl; repeat split; assumption.
  - (* PredictClick *)
    unfold handlePredict.
    destruct (model (state w)) as [m|] eqn:Em;
      destruct (imageURL (state w)) as [u|] eqn:Eu;
      [destruct (JS.truthy_string (Some u)) eqn:Et| | |]; simpl;
      try (repeat split; try assumption; apply Forall_app; split;
           [assumption | repeat constructor]).
    assert (Hcomp : forall c, loaded c = false ->
              filter loaded (images w ++ [c]) = filter loaded (images w)).
    { intros c Hc. rewrite filter_app. simpl. rewrite Hc. apply app_nil_r. }
    do 4 (split; [assumption|]). split.
    { unfold completed. simpl. rewrite Hcomp by reflexivity. exact Hlen. }
    apply Forall_app. split.
    + eapply Forall_impl; [|exact Himgs].
      intros c (H1 & H2 & H3 & H4). repeat split; try assumption.
      intros Hl. unfold completed. simpl. rewrite Hcomp by reflexivity.
      apply H4, Hl.
    + constructor; [|constructor]. repeat split; simpl.
      * exact Em.
      * apply truthy_nonempty_inv, Et.
      * exact Hwf.
      * intros _. unfold completed. simpl. rewrite Hcomp by reflexivity.
        exact Hlen.
  - (* ImageLoaded *)
    destruct (nth_error (images w) k) as [c|] eqn:Ek; [|repeat split; assumption].
    destruct (loaded c) eqn:El; [repeat split; assumption|].
    set (w1 := with_images (mark_loaded k (images w)) w).
    assert (Hc1 : length (completed w1) = S (length (completed w)))
      by (apply (completed_mark_loaded k _ c Ek El)).
    assert (Hc : closure_invariant cfg w c).
    { rewrite Forall_forall in Himgs. apply Himgs. eapply nth_error_In; eauto. }
    assert (Himgs1 : Forall (closure_invariant cfg w1) (images w1)).
    { apply mark_loaded_Forall.
      - eapply Forall_impl; [|exact Himgs]. intros c'.
        apply closure_invariant_frame; [reflexivity | lia].
      - intros c' (H1 & H2 & H3 & H4). repeat split; try assumption.
        simpl. discriminate. }
    assert (Hsame : console w1 = console_at (loadModel w1) /\
                    Forall (eq notice) (alerts w1) /\
                    prediction (state w1) = newest_label (history (state w1)) /\
                    Forall (well_formed_item cfg) (history (state w1)) /\
                    length (history (state w1)) <= length (completed w1) /\
                    Forall (closure_invariant cfg w1) (images w1)).
    { do 4 (split; [assumption|]). split; [|exact Himgs1].
      rewrite Hc1. change (history (state w1)) with (history (state w)). lia. }
    unfold img_onload.
    destruct (preprocessImage cfg img) as [t|]; [|exact Hsame].
    destruct (TF.forward (captured_model c) t) as [scores|]; [|exact Hsame].
    destruct Hc as (C1 & C2 & C3 & C4).
    simpl. repeat split; try assumption.
    + rewrite newest_label_app. reflexivity.
    + apply Forall_app. split; [exact C3|]. constructor; [|constructor].
      split; simpl; [exact C2 | apply possible_label_get].
    + rewrite length_app. simpl. specialize (C4 El).
      match goal with
      | |- _ <= length (completed ?w') =>
          change (completed w') with (completed w1)
      end. lia.
Qed.

Lemma run_session_invariant es : forall w,
  session_invariant cfg w -> session_invariant cfg (run cfg w es).
Proof.
  induction es as [|e es IH]; intros w Hinv; simpl; [assumption|].
  apply IH, step_session_invariant, Hinv.
Qed.

Lemma session_invariant_reached es :
  session_invariant cfg (run cfg initialWorld es).
Proof. apply run_session_invariant, initialWorld_session_invariant. Qed.

(** X6: in every state of a session the displayed prediction is the label of
    the newest history item, and it is the initial empty string exactly as
    long as the history is empty. *)
Theorem displayed_prediction_is_newest_label (es : list Event) :
  let s := state (run cfg initialWorld es) in
  (history s = [] /\ prediction s = Some ""%string) \/
  (exists h it, history s = h ++ [it] /\
                prediction s = HistoryItem.predictedClass it).
Proof.
  intros s. destruct (session_invariant_reached es) as (_ & _ & _ & Hp & _).
  fold s in Hp. destruct (history s) as [|a h] eqn:E using rev_ind.
  - left. split; [reflexivity | exact Hp].
  - right. exists h, a. split; [reflexivity|].
    rewrite Hp. apply newest_label_app.
Qed.

(** X7: every history item of a session has a non-empty image URL, and its
    label is either [undefined] or one of the class labels. *)
Theorem history_items_are_well_formed (es : list Event) :
  Forall (fun it =>
            HistoryItem.imageURL it <> ""%string /\
            (HistoryItem.predictedClass it = None \/
             exists label, HistoryItem.predictedClass it = Some label /\
                           In label (classLabels cfg)))
         (history (state (run cfg initialWorld es))).
Proof.
  destruct (session_invariant_reached es) as (_ & _ & _ & _ & Hwf & _).
  eapply Forall_impl; [|exact Hwf]. intros it [Hu Hl].
  split; [exact Hu|].
  destruct (HistoryItem.predictedClass it) as [l|]; [right | left; reflexivity].
  exists l. split; [reflexivity | exact Hl].
Qed.

Lemma mark_loaded_length k imgs : length (mark_loaded k imgs) = length imgs.
Proof.
  revert k. induction imgs as [|c rest IH]; intros [|k]; simpl; auto.
Qed.

Lemma run_counts_clicks es : forall w,
  length (images (run cfg w es)) + length (alerts (run cfg w es)) =
  length (images w) + length (alerts w) + clicks es.
Proof.
  unfold clicks.
  induction es as [|e es IH]; intros w; simpl; [lia|].
  rewrite IH.
  destruct e as [| m | | f | r | | k img]; simpl.
  - destruct (loadModel w); simpl; lia.
  - destruct (loadModel w); simpl; lia.
  - destruct (loadModel w); simpl; lia.
  - destruct f; simpl; lia.
  - destruct (nth_error (readers w) r) as [rd|]; [|lia].
    destruct (delivered rd); simpl; lia.
  - unfold handlePredict.
    destruct (model (state w)); destruct (imageURL (state w)) as [u|];
      [destruct (JS.truthy_string (Some u))| | |]; simpl;
      rewrite ?length_app; simpl; lia.
  - destruct (nth_error (images w) k) as [c|]; [|lia].
    destruct (loaded c); [lia|].
    rewrite img_onload_images. unfold img_onload.
    destruct (preprocessImage cfg img) as [t|];
      [destruct (TF.forward (captured_model c) t)|]; simpl;
      rewrite mark_loaded_length; lia.
Qed.

(** X8: a session never holds more history items than predictions have
    completed, nor more completed predictions than were started; and every
    click on Predict either raised the notice or started exactly one
    prediction. *)
Theorem history_bounded_by_predictions (es : list Event) :
  let w := run cfg initialWorld es in
  length (history (state w)) <= length (completed w) /\
  length (completed w) <= length (images w) /\
  length (images w) + length (alerts w) = clicks es.
Proof.
  intros w.
  destruct (session_invariant_reached es) as (_ & _ & _ & _ & _ & Hlen & _).
  split; [exact Hlen|]. split; [apply filter_length_le|].
  apply (run_counts_clicks es initialWorld).
Qed.

(** X9: every prediction a session has started, pending or completed, holds
    the model the session has installed: a prediction never runs on another
    model than the one loaded at start-up. *)
Theorem predictions_hold_the_installed_model (es : list Event) :
  let w := run cfg initialWorld es in
  Forall (fun c => model (state w) = Some (captured_model c)) (images w).
Proof.
  intros w.
  destruct (session_invariant_reached es) as (_ & _ & _ & _ & _ & _ & Himgs).
  eapply Forall_impl; [|exact Himgs]. intros c Hc. apply Hc.
Qed.

(** X10: the console of a session holds the attempt message once the load
    has started, followed by exactly one outcome message once it has settled,
    and nothing else; and every alert raised is the notice of
    [handlePredict]. *)
Theorem console_follows_the_load (es : list Event) :
  let w := run cfg initialWorld es in
  console w = console_at (loadModel w) /\
  Forall (fun msg => msg = notice) (alerts w).
Proof.
  intros w.
  destruct (session_invariant_reached es) as (_ & Hcon & Hal & _).
  split; [exact Hcon|].
  eapply Forall_impl; [|exact Hal]. intros msg Hm. symmetry. exact Hm.
Qed.

End SessionInvariant.

(** ** The handlers, one by one *)

Section Handlers.

Import Reading.
Variable cfg : Classifier.

Local Open Scope nat_scope.

(** X11: each state cell has one writer: only the resolved load changes the
    model, only a reader's [onload] changes the image URL, and only an
    image's [onload] changes the prediction or the history. *)
Theorem state_cells_have_one_writer (w : World) (e : Event) :
  let w' := step cfg w e in
  ((forall m, e <> ModelResolved m) -> model (state w') = model (state w)) /\
  ((forall k, e <> ReaderLoad k) -> imageURL (state w') = imageURL (state w)) /\
  ((forall k img, e <> ImageLoaded k img) ->
   prediction (state w') = prediction (state w) /\
   history (state w') = history (state w)).
Proof.
  destruct e as [| m | | f | r | | k img]; simpl.
  - destruct (loadModel w); simpl; auto.
  - split; [intros H; exfalso; apply (H m); reflexivity|].
    destruct (loadModel w); simpl; auto.
  - destruct (loadModel w); simpl; auto.
  - destruct f; simpl; auto.
  - split; [|split; [intros H; exfalso; apply (H r); reflexivity|]];
      (destruct (nth_error (readers w) r) as [rd|]; [|auto];
       destruct (delivered rd); simpl; auto).
  - unfold handlePredict.
    destruct (model (state w)) eqn:Em;
      destruct (imageURL (state w)) as [u|] eqn:Eu;
      [destruct (JS.truthy_string (Some u))| | |]; simpl; rewrite ?Em, ?Eu; auto.
  - split; [|split; [|intros H; exfalso; apply (H k img); reflexivity]];
      (destruct (nth_error (images w) k) as [c|]; [|auto];
       destruct (loaded c); [auto|]; unfold img_onload;
       destruct (preprocessImage cfg img) as [t|];
       [destruct (TF.forward (captured_model c) t)|]; simpl; auto).
Qed.

(** X12: when [preprocessImage] or [model.predict] throws in an image's
    [onload] (for instance on an input shape the model rejects), the
    callback ends before any setter runs: the state cells are unchanged, no
    notice is raised and nothing is logged. *)
Theorem failed_prediction_changes_nothing
        (w : World) (k : nat) (c : ImageLoad) (img : DOM.HTMLImageElement) :
  nth_error (images w) k = Some c ->
  (forall t, preprocessImage cfg img = Some t ->
             TF.forward (captured_model c) t = None) ->
  let w' := step cfg w (ImageLoaded k img) in
  state w' = state w /\ alerts w' = alerts w /\ console w' = console w.
Proof.
  intros Hk Hfail. simpl. rewrite Hk.
  destruct (loaded c); [auto|]. unfold img_onload.
  destruct (preprocessImage cfg img) as [t|]; [|auto].
  rewrite (Hfail t eq_refl). auto.
Qed.

Lemma mark_delivered_other k k' rs :
  k' <> k -> nth_error (mark_delivered k' rs) k = nth_error rs k.
Proof.
  revert k k'. induction rs as [|r rest IH]; intros k k' Hne.
  - destruct k'; reflexivity.
  - destruct k' as [|k']; destruct k as [|k]; simpl; try reflexivity.
    + congruence.
    + apply IH. congruence.
Qed.

(** X13: the image shown is the one whose reader finished last, not the one
    selected last: when two readers are pending and both deliver, the image
    URL is the result of the second to deliver, and neither delivery touches
    the model, the prediction or the history. *)
Theorem last_reader_to_finish_wins
        (w : World) (k1 k2 : nat) (r1 r2 : FileReader) :
  k1 <> k2 ->
  nth_error (readers w) k1 = Some r1 -> delivered r1 = false ->
  nth_error (readers w) k2 = Some r2 -> delivered r2 = false ->
  let w' := run cfg w [ReaderLoad k1; ReaderLoad k2] in
  imageURL (state w') = Some (result r2) /\
  model (state w') = model (state w) /\
  prediction (state w') = prediction (state w) /\
  history (state w') = history (state w).
Proof.
  intros Hne H1 D1 H2 D2. unfold run. cbn [fold_left].
  cbn [step]. rewrite H1, D1. cbn [reader_onload with_state with_readers readers].
  rewrite mark_delivered_other by congruence. rewrite H2, D2.
  simpl. auto.
Qed.

(** X14: predictions made one after the other, each clicked after the
    previous one has completed, append one item each, in order, each
    carrying the image selected for it. *)
Theorem sequential_predictions_append
        (w : World) (m : TF.LayersModel)
        (rounds : list (string * DOM.HTMLImageElement)) :
  model (state w) = Some m ->
  Forall (fun r => fst r <> ""%string /\ outcome cfg m r <> []) rounds ->
  let w' := sequential cfg w rounds in
  exists items,
    history (state w') = history (state w) ++ items /\
    length items = length rounds /\
    map HistoryItem.imageURL items = map fst rounds.
Proof.
  intros Hm Hrounds w'.
  exists (flat_map (outcome cfg m) rounds). split.
  - apply sequential_history; [exact Hm|].
    eapply Forall_impl; [|exact Hrounds]. intros r [H _]. exact H.
  - clear w' Hm. induction Hrounds as [|r rest [_ Hr] _ [IH1 IH2]];
      [split; reflexivity|].
    cbn [flat_map]. unfold outcome in Hr |- * at 1 3.
    destruct (preprocessImage cfg (snd r)) as [t|]; [|contradiction].
    destruct (TF.forward m t) as [scores|]; [|contradiction].
    simpl. rewrite IH1, IH2. split; reflexivity.
Qed.

End Handlers.

(** ** What is rendered *)

Section Rendering.

Import Reading.
Local Open Scope nat_scope.

Lemma cards_from_nth h : forall index i,
  nth_error (View.cards_from index h) i =
  option_map (View.card (index + i)) (nth_error h i).
Proof.
  induction h as [|item rest IH]; intros index [|i]; simpl; try reflexivity.
  - rewrite Nat.add_0_r. reflexivity.
  - rewrite IH. rewrite Nat.add_succ_r. reflexivity.
Qed.

Lemma cards_from_length h : forall index,
  length (View.cards_from index h) = length h.
Proof. induction h as [|item rest IH]; intros index; simpl; auto. Qed.

(** X15: the history grid is absent exactly when the history is empty;
    otherwise it shows one card per history item, in history order (newest
    last), card [i] carrying key [i] and the image URL and label of item
    [i]. *)
Theorem cards_follow_the_history (s : State) :
  (View.cards (View.render s) = None <-> history s = []) /\
  (forall l, View.cards (View.render s) = Some l ->
     length l = length (history s) /\
     forall i, nth_error l i = option_map (View.card i) (nth_error (history s) i)).
Proof.
  unfold View.render. cbn [View.cards].
  destruct (history s) as [|a h] eqn:E.
  - split; [split; reflexivity | intros l Hl; discriminate].
  - split; [split; intros H; discriminate|].
    intros l Hl. injection Hl as <-. split.
    + exact (cards_from_length (a :: h) 0).
    + intros i. exact (cards_from_nth (a :: h) 0 i).
Qed.

(** X16: in every state of a session of a classifier whose labels are
    non-empty, the prediction heading is absent exactly when nothing has
    been predicted yet or the newest history item has no label; when
    present, it reads "Prediction: " followed by the newest item's label. *)
Theorem heading_shows_the_newest_label (cfg : Classifier) (es : list Event) :
  Forall (fun l => l <> ""%string) (classLabels cfg) ->
  let s := state (run cfg initialWorld es) in
  (View.heading (View.render s) = None <->
   history s = [] \/
   exists h it, history s = h ++ [it] /\ HistoryItem.predictedClass it = None) /\
  (forall text, View.heading (View.render s) = Some text ->
   exists h it label,
     history s = h ++ [it] /\ HistoryItem.predictedClass it = Some label /\
     In label (classLabels cfg) /\
     text = String.append "Prediction: " label).
Proof.
  intros Hlabels s.
  destruct (session_invariant_reached cfg es) as (_ & _ & _ & Hp & Hwf & _).
  fold s in Hp, Hwf. unfold View.render. cbn [View.heading]. rewrite Hp.
  destruct (history s) as [|it h _] using rev_ind.
  - simpl. split.
    + split; [left; reflexivity | reflexivity].
    + intros text H. discriminate.
  - rewrite newest_label_app.
    apply Forall_app in Hwf as [_ Hit]. inversion Hit as [|? ? [_ Hl] _]; subst.
    destruct (HistoryItem.predictedClass it) as [label|] eqn:El.
    + simpl in Hl. rewrite Forall_forall in Hlabels.
      pose proof (Hlabels label Hl) as Hne.
      assert (Ht : JS.truthy_string (Some label) = true)
        by (destruct label; [congruence | reflexivity]).
      rewrite Ht. split.
      * split; [discriminate|].
        intros [H | (h' & it' & H & Hnone)].
        -- destruct h; discriminate.
        -- apply app_inj_tail in H as [_ <-]. congruence.
      * intros text H. injection H as <-.
        exists h, it, label. repeat split; assumption.
    + simpl. split.
      * split; [|reflexivity]. intros _. right. exists h, it. split; auto.
      * intros text H. discriminate.
Qed.

End Rendering.

(** ** Instances *)

Section Instances.

Import Samples Reading.
Local Open Scope nat_scope.

Lemma decoded_image2x2 : DOM.decoded image2x2.
Proof. unfold DOM.decoded. simpl. repeat split; lia. Qed.



Lemma preprocessImage_ignores_other_channels_witness :
  DOM.rgba image2x2 <> DOM.rgba image2x2_recoloured /\
  preprocessImage clothingClassifier image2x2 =
  preprocessImage clothingClassifier image2x2_recoloured.
Proof.
  split; [discriminate|].
  apply preprocessImage_ignores_other_channels.
  - simpl. lia.
  - exact decoded_image2x2.
  - unfold DOM.decoded. simpl. repeat split; lia.
  - reflexivity.
  - reflexivity.
  - simpl. intros p ch Hp Hch.
    assert (ch = 0) as -> by lia.
    destruct p as [|[|[|[|p]]]]; try reflexivity. lia.
Defined.

Lemma preprocessImage_at_target_size_witness :
  exists t v,
    preprocessImage clothingClassifier image28x28 = Some t /\
    TF.data t = TF.Float32Data v /\
    length v = 784 /\
    nth_error v 5 = Some (normalize x40).
Proof.
  assert (Hd : DOM.decoded image28x28).
  { unfold DOM.decoded. split; [simpl; lia|]. split; [simpl; lia|].
    vm_compute. reflexivity. }
  assert (Hs : DOM.sized image28x28) by (unfold DOM.sized; simpl; lia).
  destruct (preprocessImage_at_target_size clothingClassifier image28x28)
    as (t & v & Hp & Hdata & Hl & Hk);
    [simpl; lia | exact Hd | exact Hs | reflexivity | reflexivity |].
  exists t, v. split; [exact Hp|]. split; [exact Hdata|]. split; [exact Hl|].
  apply (Hk 5). simpl. lia.
Defined.

Lemma failed_prediction_changes_nothing_witness :
  let w := run clothingClassifier initialWorld
               (ready (constantModel brainTumorShape sneakerScores) ++
                [PredictClick]) in
  let w' := step clothingClassifier w (ImageLoaded 0 image2x2) in
  map loaded (images w') = [true] /\
  state w' = state w /\ alerts w' = alerts w /\ console w' = console w.
Proof.
  intros w. split; [reflexivity|].
  apply (failed_prediction_changes_nothing clothingClassifier w 0
           {| captured_model := constantModel brainTumorShape sneakerScores;
              captured_imageURL := url1;
              captured_history := []; loaded := false |}).
  - reflexivity.
  - intros t Ht.
    destruct (preprocessImage_spec clothingClassifier image2x2) as (v & Hp & _).
    rewrite Hp in Ht. injection Ht as <-. reflexivity.
Defined.

Lemma last_reader_to_finish_wins_witness :
  let w := run clothingClassifier initialWorld
               [InputChange (Some url1); InputChange (Some url2)] in
  let w' := run clothingClassifier w [ReaderLoad 1; ReaderLoad 0] in
  imageURL (state w') = Some url1 /\ history (state w') = [].
Proof.
  intros w.
  destruct (last_reader_to_finish_wins clothingClassifier w 1 0
              {| result := url2; delivered := false |}
              {| result := url1; delivered := false |})
    as (Hu & _ & _ & Hh);
    [discriminate | reflexivity | reflexivity | reflexivity | reflexivity |].
  split; [exact Hu | exact Hh].
Defined.

Lemma sequential_predictions_append_witness :
  let w := run clothingClassifier initialWorld
               [Mounted; ModelResolved thresholdModel] in
  let rounds := [(url1, image2x2); (url2, image1x3)] in
  exists items,
    history (state (sequential clothingClassifier w rounds)) = [] ++ items /\
    length items = 2 /\
    map HistoryItem.imageURL items = [url1; url2].
Proof.
  intros w rounds.
  apply (sequential_predictions_append clothingClassifier w thresholdModel rounds).
  - reflexivity.
  - repeat constructor; try discriminate; vm_compute; discriminate.
Defined.

Lemma heading_shows_the_newest_label_witness :
  let s := state (run clothingClassifier initialWorld interleaved) in
  View.heading (View.render s) = Some "Prediction: Bag"%string /\
  exists h it label,
    history s = h ++ [it] /\ HistoryItem.predictedClass it = Some label /\
    In label (classLabels clothingClassifier) /\
    "Prediction: Bag"%string = String.append "Prediction: " label.
Proof.
  intros s.
  assert (Hl : Forall (fun l => l <> ""%string) (classLabels clothingClassifier))
    by (repeat constructor; discriminate).
  destruct (heading_shows_the_newest_label clothingClassifier interleaved Hl)
    as [_ Hshown].
  assert (Hh : View.heading (View.render s) = Some "Prediction: Bag"%string)
    by (vm_compute; reflexivity).
  split; [exact Hh|]. apply Hshown. exact Hh.
Defined.

End Instances.
